(** * Metronome: the lookahead scheduler of rhythm-vis

    A shallow embedding of the [Metronome] class (lib/Metronome.js) and
    the properties its specification states about it.

    Modelling conventions.
    - A JavaScript number is an exact rational ([Q]); [NaN] is kept as the
      one non-number a caller may pass.  Rounding, overflow and the
      infinities of IEEE doubles are outside the model: the single place
      where the code would leave the rationals (60 / 0) is reported as
      [Unmodelled].
    - The private fields of the object are the record [Metronome]; the
      browser the object talks to (the audio clock, the timers set with
      setTimeout, the console, the oscillators, the observer callback) is
      the record [Browser].  Every effect is appended to one trace, in the
      order in which the code performs it.
    - JavaScript runs a callback to completion, so the audio clock does not
      advance while a method runs; it advances between calls ([setClock]).
    - The observer and the oscillators are external: a call of the
      observer and a command to an oscillator are recorded, and are taken
      to succeed.
    - The loop of [_scheduler] need not terminate, so it takes fuel and
      answers [OutOfFuel] when the fuel does not suffice. *)

From Stdlib Require Import QArith Qround ZArith List Bool Lia Lqa Sorted.
Import ListNotations.

Open Scope Q_scope.

(** ** JavaScript values *)

Module Js.

Inductive num : Type :=
| NaN
| Fin (q : Q).

(** The values a caller passes for [bpm] and [accent]. *)
Inductive value : Type :=
| Undefined
| Null
| Num (n : num).

(** Unary plus. *)
Definition toNumber (v : value) : num :=
  match v with
  | Undefined => NaN
  | Null => Fin 0
  | Num n => n
  end.

Definition isNaN (n : num) : bool :=
  match n with
  | NaN => true
  | Fin _ => false
  end.

(** ToBoolean: undefined, null, NaN and 0 are falsy. *)
Definition truthy (v : value) : bool :=
  match v with
  | Undefined | Null => false
  | Num NaN => false
  | Num (Fin q) => negb (Qeq_bool q 0)
  end.

(** [x < y] on rationals, as a boolean. *)
Definition ltb (x y : Q) : bool := negb (Qle_bool y x).

(** Rounding towards zero. *)
Definition trunc (x : Q) : Z := Z.quot (Qnum x) (Zpos (Qden x)).

(** The remainder operator [%]: the result has the sign of the dividend,
    and a zero divisor gives NaN. *)
Definition rem (a b : Q) : num :=
  if Qeq_bool b 0 then NaN
  else Fin (a - b * inject_Z (trunc (a / b))).

(** Strict equality [===] of a number with a rational: NaN equals
    nothing. *)
Definition strict_eq (n : num) (q : Q) : bool :=
  match n with
  | NaN => false
  | Fin p => Qeq_bool p q
  end.

(** A field that may still be [null] used as a number. *)
Definition ofNullable (o : option Q) : Q :=
  match o with
  | Some q => q
  | None => 0
  end.

Definition ofNullableZ (o : option Z) : Z :=
  match o with
  | Some z => z
  | None => 0%Z
  end.

End Js.

(** ** The object and its environment *)

(** The two tick functions a timer can be armed with. *)
Inductive callback : Type :=
| Scheduler
| SchedulerForRhythmTrack.

(** An entry of [#rhythm]. *)
Record Beep : Type := mkBeep {
  time : Q;
  accented : bool
}.

Inductive message : Type :=
| InvalidBpm (v : Js.value)
| InvalidAccent (v : Js.value)
| MetronomeAt (bpm accent : Js.value)
| Stopped.

Inductive effect : Type :=
| ConsoleError (m : message)
| ConsoleLog (m : message)
| Resume
| Click (observer : nat) (t : Q)
| Tone (start frequency stop : Q).

Record timer : Type := mkTimer {
  handle : nat;
  delay : Z;
  action : callback
}.

(** The private fields of the class, in the order of their declaration
    (the three configuration constants are the definitions below). *)
Record Metronome : Type := mkMetronome {
  isPlaying : bool;
  timerID : option nat;
  bpm : option Q;
  accent : Q;
  startTimeStamp : option Q;
  beatCount : option Z;
  rhythm : option (list Beep);
  onClick : option nat
}.

Definition beepDuration : Q := 5 # 100.
Definition lookAheadTime : Q := 5 # 10.
Definition scheduleTimeout : Z := 100.

Record Browser : Type := mkBrowser {
  currentTime : Q;
  suspended : bool;
  pending : list timer;
  nextHandle : nat;
  trace : list effect
}.

Record State : Type := mkState {
  this : Metronome;
  env : Browser
}.

(** The object right after [new Metronome()]. *)
Definition fresh : Metronome :=
  {| isPlaying := false; timerID := None; bpm := None; accent := 4;
     startTimeStamp := None; beatCount := None; rhythm := None;
     onClick := None |}.

(** *** Field updates *)

Definition set_isPlaying (b : bool) (m : Metronome) : Metronome :=
  mkMetronome b (timerID m) (bpm m) (accent m) (startTimeStamp m)
              (beatCount m) (rhythm m) (onClick m).

Definition set_timerID (h : option nat) (m : Metronome) : Metronome :=
  mkMetronome (isPlaying m) h (bpm m) (accent m) (startTimeStamp m)
              (beatCount m) (rhythm m) (onClick m).

Definition set_bpm (b : option Q) (m : Metronome) : Metronome :=
  mkMetronome (isPlaying m) (timerID m) b (accent m) (startTimeStamp m)
              (beatCount m) (rhythm m) (onClick m).

Definition set_accent (a : Q) (m : Metronome) : Metronome :=
  mkMetronome (isPlaying m) (timerID m) (bpm m) a (startTimeStamp m)
              (beatCount m) (rhythm m) (onClick m).

Definition set_startTimeStamp (t : option Q) (m : Metronome) : Metronome :=
  mkMetronome (isPlaying m) (timerID m) (bpm m) (accent m) t
              (beatCount m) (rhythm m) (onClick m).

Definition set_beatCount (c : option Z) (m : Metronome) : Metronome :=
  mkMetronome (isPlaying m) (timerID m) (bpm m) (accent m) (startTimeStamp m)
              c (rhythm m) (onClick m).

Definition set_rhythm (r : option (list Beep)) (m : Metronome) : Metronome :=
  mkMetronome (isPlaying m) (timerID m) (bpm m) (accent m) (startTimeStamp m)
              (beatCount m) r (onClick m).

Definition set_onClick (o : option nat) (m : Metronome) : Metronome :=
  mkMetronome (isPlaying m) (timerID m) (bpm m) (accent m) (startTimeStamp m)
              (beatCount m) (rhythm m) o.

Definition on_this (f : Metronome -> Metronome) (s : State) : State :=
  mkState (f (this s)) (env s).

Definition on_env (f : Browser -> Browser) (s : State) : State :=
  mkState (this s) (f (env s)).

(** *** The browser *)

Definition emit (e : effect) : State -> State :=
  on_env (fun b => mkBrowser (currentTime b) (suspended b) (pending b)
                             (nextHandle b) (trace b ++ [e])).

(** The audio clock moves on between two calls. *)
Definition setClock (t : Q) : State -> State :=
  on_env (fun b => mkBrowser t (suspended b) (pending b) (nextHandle b)
                             (trace b)).

(** [setTimeout(cb, ms)]: arms a timer under a handle never used before and
    returns the handle. *)
Definition setTimeout (cb : callback) (ms : Z) (s : State) : nat * State :=
  let b := env s in
  (nextHandle b,
   mkState (this s)
           (mkBrowser (currentTime b) (suspended b)
                      (mkTimer (nextHandle b) ms cb :: pending b)
                      (S (nextHandle b)) (trace b))).

(** [clearTimeout(id)]: disarms the timer of that handle, if it is still
    armed; [null] names no timer. *)
Definition clearTimeout (id : option nat) : State -> State :=
  match id with
  | None => fun s => s
  | Some h =>
      on_env (fun b => mkBrowser (currentTime b) (suspended b)
                 (filter (fun tm => negb (Nat.eqb (handle tm) h)) (pending b))
                 (nextHandle b) (trace b))
  end.

(** ** Outcomes of a call *)

Inductive outcome : Type :=
| Returns (s : State)
| Throws (s : State)       (* a TypeError escapes; [s] is the state then *)
| Unmodelled               (* 60 / 0: the code leaves the rationals *)
| OutOfFuel.               (* the loop did not finish within the fuel *)

Definition bind (o : outcome) (k : State -> outcome) : outcome :=
  match o with
  | Returns s => k s
  | other => other
  end.

Notation "s <- c ;; k" := (bind c (fun s => k))
  (at level 61, c at next level, right associativity).

(** ** The methods *)

(** [onClick(callback)] *)
Definition registerOnClick (cb : nat) : State -> State :=
  on_this (set_onClick (Some cb)).

(** [_playSound(time, frequency)]: the observer first, then the
    oscillator.  Calling an observer that was never registered is a
    TypeError. *)
Definition _playSound (time frequency : Q) (s : State) : outcome :=
  match onClick (this s) with
  | None => Throws s
  | Some cb =>
      Returns (emit (Tone time frequency (time + beepDuration))
                    (emit (Click cb time) s))
  end.

Definition is_minus_one (c : option Z) : bool :=
  match c with
  | Some z => Z.eqb z (-1)
  | None => false
  end.

(** [this.#beatCount++] *)
Definition incr_beatCount : State -> State :=
  on_this (fun m => set_beatCount (Some (Js.ofNullableZ (beatCount m) + 1)%Z) m).

(** The accent test of the loop:
    [beatCount % accentNote === accentNote - 1 || beatCount === -1]. *)
Definition isAccent (accentNote : Q) (beatCount : option Z) : bool :=
  Js.strict_eq (Js.rem (inject_Z (Js.ofNullableZ beatCount)) accentNote)
               (accentNote - 1)
  || is_minus_one beatCount.

(** The while loop of [_scheduler]; [nextNotetime] is its local variable. *)
Fixpoint scheduler_loop (fuel : nat) (accentNote secondsPerBeat : Q)
    (nextNotetime : Q) (s : State) : outcome :=
  match fuel with
  | O => OutOfFuel
  | S fuel' =>
      if Js.ltb nextNotetime (currentTime (env s) + lookAheadTime) then
        let nextNotetime := nextNotetime + secondsPerBeat in
        let frequency :=
          if isAccent accentNote (beatCount (this s)) then 330 else 220 in
        s1 <- _playSound nextNotetime frequency s ;;
        scheduler_loop fuel' accentNote secondsPerBeat nextNotetime
                       (incr_beatCount s1)
      else Returns s
  end.

(** Arms the next run and stores its handle in [#timerID]. *)
Definition plan (cb : callback) (s : State) : State :=
  let (h, s1) := setTimeout cb scheduleTimeout s in
  on_this (set_timerID (Some h)) s1.

Definition _scheduler (fuel : nat) (s : State) : outcome :=
  let accentNote := accent (this s) in
  let b := Js.ofNullable (bpm (this s)) in
  if Qeq_bool b 0 then Unmodelled
  else
    let secondsPerBeat := 60 / b in
    let nextNotetime :=
      Js.ofNullable (startTimeStamp (this s))
      + inject_Z (Js.ofNullableZ (beatCount (this s))) * secondsPerBeat in
    s1 <- scheduler_loop fuel accentNote secondsPerBeat nextNotetime s ;;
    Returns (plan Scheduler s1).

(** The while loop of [_schedulerForRhythmTrack], by recursion on the
    queue it shifts: [queue] is the content of [#rhythm] on entry, and each
    shift stores the rest back into the field. *)
Fixpoint rhythm_loop (scheduleEndTime : Q) (queue : list Beep) (s : State)
    : outcome :=
  match queue with
  | [] => Returns s
  | beep :: rest =>
      let nextNoteTime := Js.ofNullable (startTimeStamp (this s)) + time beep in
      if Js.ltb scheduleEndTime nextNoteTime then Returns s
      else
        let frequency := if accented beep then 330 else 220 in
        s1 <- _playSound nextNoteTime frequency
                (on_this (set_rhythm (Some rest)) s) ;;
        rhythm_loop scheduleEndTime rest s1
  end.

Definition rhythm_left (s : State) : bool :=
  match rhythm (this s) with
  | Some (_ :: _) => true
  | _ => false
  end.

Definition _schedulerForRhythmTrack (s : State) : outcome :=
  let scheduleEndTime := currentTime (env s) + lookAheadTime in
  match rhythm (this s) with
  | None => Throws s                       (* null has no length *)
  | Some queue =>
      s1 <- rhythm_loop scheduleEndTime queue s ;;
      if rhythm_left s1 then Returns (plan SchedulerForRhythmTrack s1)
      else Returns s1
  end.

(** [start(bpm, accent = 4)] *)
Definition start (fuel : nat) (bpm_arg accent_arg : Js.value) (s : State)
    : outcome :=
  let accent_arg :=
    match accent_arg with
    | Js.Undefined => Js.Num (Js.Fin 4)
    | v => v
    end in
  if negb (Js.truthy bpm_arg) || Js.isNaN (Js.toNumber bpm_arg) then
    Returns (emit (ConsoleError (InvalidBpm bpm_arg)) s)
  else if negb (Js.truthy accent_arg) || Js.isNaN (Js.toNumber accent_arg) then
    Returns (emit (ConsoleError (InvalidAccent accent_arg)) s)
  else
    match Js.toNumber bpm_arg, Js.toNumber accent_arg with
    | Js.Fin b, Js.Fin a =>
        let s := emit (ConsoleLog (MetronomeAt bpm_arg accent_arg)) s in
        let s := if suspended (env s) then emit Resume s else s in
        let s := on_this (set_bpm (Some b)) s in
        let s := on_this (set_accent a) s in
        let s := on_this (set_isPlaying true) s in
        let s := on_this (set_beatCount (Some (-1)%Z)) s in
        let s := on_this (set_startTimeStamp (Some (currentTime (env s)))) s in
        _scheduler fuel s
    | _, _ => Returns s                    (* excluded by the two guards *)
    end.

(** [stop()] *)
Definition stop (s : State) : State :=
  let s := emit (ConsoleLog Stopped) s in
  let s := clearTimeout (timerID (this s)) s in
  on_this (set_isPlaying false) s.

(** [toggle(bpm, accent = 4)] *)
Definition toggle (fuel : nat) (bpm_arg accent_arg : Js.value) (s : State)
    : outcome :=
  let accent_arg :=
    match accent_arg with
    | Js.Undefined => Js.Num (Js.Fin 4)
    | v => v
    end in
  if isPlaying (this s) then Returns (stop s)
  else
    let bpm_arg :=
      match bpm_arg with
      | Js.Undefined =>
          match bpm (this s) with
          | Some b => Js.Num (Js.Fin b)
          | None => Js.Null
          end
      | v => v
      end in
    start fuel bpm_arg accent_arg s.

(** ** The ticker *)

Definition armed (h : nat) (s : State) : option timer :=
  find (fun tm => Nat.eqb (handle tm) h) (pending (env s)).

(** The timer of handle [h] comes due: if it is still armed it is removed
    and its callback runs; a cleared timer does nothing. *)
Definition fire (fuel : nat) (h : nat) (s : State) : outcome :=
  match armed h s with
  | None => Returns s
  | Some tm =>
      let s := clearTimeout (Some h) s in
      match action tm with
      | Scheduler => _scheduler fuel s
      | SchedulerForRhythmTrack => _schedulerForRhythmTrack s
      end
  end.

(** A playback session as the ticker drives it: the timer the object
    remembers comes due at clock time [t]. *)
Definition tick_at (fuel : nat) (t : Q) (s : State) : outcome :=
  match timerID (this s) with
  | Some h => fire fuel h (setClock t s)
  | None => Returns (setClock t s)
  end.

Fixpoint ticks (fuel : nat) (ts : list Q) (s : State) : outcome :=
  match ts with
  | [] => Returns s
  | t :: ts' => s1 <- tick_at fuel t s ;; ticks fuel ts' s1
  end.

(** [start(bpm, accent)] at the current clock time, then one tick at each
    of the clock times [ts]. *)
Definition session (fuel : nat) (bpm_arg accent_arg : Js.value)
    (ts : list Q) (s : State) : outcome :=
  s1 <- start fuel bpm_arg accent_arg s ;; ticks fuel ts s1.

(** ** What the observer and the audio clock receive *)

(** The tones commanded so far: start time and frequency, in order. *)
Fixpoint tones (tr : list effect) : list (Q * Q) :=
  match tr with
  | [] => []
  | Tone t f _ :: tr' => (t, f) :: tones tr'
  | _ :: tr' => tones tr'
  end.

(** The effects of [n] iterations of the loop of [_scheduler] entered with
    [nextNotetime = next] and [beatCount = c]. *)
Fixpoint beeps (cb : nat) (accentNote spb next : Q) (c : Z) (n : nat)
    : list effect :=
  match n with
  | O => []
  | S n' =>
      let t := next + spb in
      Click cb t
      :: Tone t (if isAccent accentNote (Some c) then 330 else 220)
              (t + beepDuration)
      :: beeps cb accentNote spb t (c + 1) n'
  end.

(** The browser after some more effects. *)
Definition traced (tr : list effect) (b : Browser) : Browser :=
  mkBrowser (currentTime b) (suspended b) (pending b) (nextHandle b)
            (trace b ++ tr).

(** Natural numbers as JavaScript numbers. *)
Definition ofNat (k : nat) : Q := inject_Z (Z.of_nat k).

(** The beat of index [k] of a session started at [t0]. *)
Definition beatTime (t0 b : Q) (k : nat) : Q := t0 + ofNat k * (60 / b).

(** ** Vocabulary of the properties *)

(** More fuel never changes an outcome other than [OutOfFuel]. *)
Definition stable (f : nat -> outcome) : Prop :=
  forall (fuel fuel' : nat) (r : outcome),
    (fuel <= fuel')%nat -> f fuel = r -> r <> OutOfFuel -> f fuel' = r.

(** The clock times of the ticks of a session never go back. *)
Fixpoint nondecreasing (t : Q) (ts : list Q) : Prop :=
  match ts with
  | [] => True
  | t' :: ts' => t <= t' /\ nondecreasing t' ts'
  end.

(** What the session started at [t0] with tempo [b] and accent [a] owes
    for its beat of index [k]: the time, and the pitch the accent test
    gives at the pre-increment count [k - 1]. *)
Definition beat_ok (t0 b a : Q) (x : Q * Q) (k : nat) : Prop :=
  fst x == beatTime t0 b k
  /\ snd x = (if isAccent a (Some (Z.of_nat k - 1)%Z) then 330 else 220).

(** The state in which a tick of the session started in [s0] is entered:
    [N] beats are out, and all of them were due. *)
Definition ready (s0 : State) (b a : Q) (N : nat) (s : State) : Prop :=
  let t0 := currentTime (env s0) in
  isPlaying (this s) = true
  /\ bpm (this s) = Some b
  /\ accent (this s) = a
  /\ startTimeStamp (this s) = Some t0
  /\ beatCount (this s) = Some (Z.of_nat N - 1)%Z
  /\ onClick (this s) = onClick (this s0)
  /\ (exists l, tones (trace (env s)) = tones (trace (env s0)) ++ l
                /\ Forall2 (beat_ok t0 b a) l (seq 0 N))
  /\ (forall k : nat, (k < N)%nat ->
        t0 + (ofNat k - 1) * (60 / b) < currentTime (env s) + lookAheadTime).

(** The state a tick at clock time [T] leaves: the next run is armed, and
    the beats out are exactly those whose pre-increment note time lies
    before the end of the window. *)
Definition playing (s0 : State) (b a : Q) (T : Q) (N : nat) (s : State)
    : Prop :=
  let t0 := currentTime (env s0) in
  isPlaying (this s) = true
  /\ bpm (this s) = Some b
  /\ accent (this s) = a
  /\ startTimeStamp (this s) = Some t0
  /\ beatCount (this s) = Some (Z.of_nat N - 1)%Z
  /\ onClick (this s) = onClick (this s0)
  /\ (exists h, timerID (this s) = Some h
                /\ armed h s = Some (mkTimer h scheduleTimeout Scheduler))
  /\ currentTime (env s) = T
  /\ (exists l, tones (trace (env s)) = tones (trace (env s0)) ++ l
                /\ Forall2 (beat_ok t0 b a) l (seq 0 N))
  /\ (forall k : nat, (k < N)%nat <->
        t0 + (ofNat k - 1) * (60 / b) < T + lookAheadTime).

(** What [_playSound] does for one beep of the queue, [t0] being the
    start time stamp. *)
Definition beep_effects (cb : nat) (t0 : Q) (e : Beep) : list effect :=
  [Click cb (t0 + time e);
   Tone (t0 + time e) (if accented e then 330 else 220)
        (t0 + time e + beepDuration)].

(** Ticks of the rhythm scheduler at the clock times [ts]. *)
Fixpoint rhythm_ticks (ts : list Q) (s : State) : outcome :=
  match ts with
  | [] => Returns s
  | t :: ts' =>
      s1 <- _schedulerForRhythmTrack (setClock t s) ;; rhythm_ticks ts' s1
  end.

(** The first beep left in the queue, if any, is not yet due. *)
Definition not_due (t0 endTime : Q) (rest : list Beep) : Prop :=
  match rest with
  | [] => True
  | e :: _ => endTime < t0 + time e
  end.

(** ** Example states *)

(** A browser at clock time 0 with no timer armed and nothing done yet. *)
Definition quiet : Browser :=
  {| currentTime := 0; suspended := true; pending := []; nextHandle := 0;
     trace := [] |}.

(** A new metronome. *)
Definition created : State := mkState fresh quiet.

(** A new metronome on which an observer has been registered. *)
Definition observed : State := registerOnClick 0 created.

(** The state [start(-60, 4)] leaves on a new metronome with an observer,
    at clock time 0. *)
Definition after_negative_start : State :=
  {| this :=
       {| isPlaying := true; timerID := Some 0%nat; bpm := Some (-(60));
          accent := 4; startTimeStamp := Some 0; beatCount := Some (-1)%Z;
          rhythm := None; onClick := Some 0%nat |};
     env :=
       {| currentTime := 0; suspended := true;
          pending := [mkTimer 0 scheduleTimeout Scheduler];
          nextHandle := 1;
          trace := [ConsoleLog (MetronomeAt (Js.Num (Js.Fin (-(60))))
                                            (Js.Num (Js.Fin 4)));
                    Resume] |} |}.

(** [start(120, 4)] twice at clock time 0, then [stop()]. *)
Definition started_twice_then_stopped : outcome :=
  s1 <- start 3 (Js.Num (Js.Fin 120)) (Js.Num (Js.Fin 4)) observed ;;
  s2 <- start 3 (Js.Num (Js.Fin 120)) (Js.Num (Js.Fin 4)) s1 ;;
  Returns (stop s2).

(** A queue of three beeps, started at clock time 1 and ticked at 1. *)
Definition with_rhythm : State :=
  setClock 1
    (on_this (set_startTimeStamp (Some 1))
       (on_this (set_rhythm (Some [mkBeep 0 true; mkBeep (1 # 2) false;
                                   mkBeep 2 false]))
          observed)).

(** ** The rest of the class *)

(** [peep()]: one tone at the normal pitch, right now.  The observer is not
    called. *)
Definition peep (s : State) : State :=
  let s := if suspended (env s) then emit Resume s else s in
  emit (Tone (currentTime (env s)) 220 (currentTime (env s) + beepDuration)) s.

(** The result of a run that returns, for the examples. *)
Definition result (o : outcome) (otherwise : State) : State :=
  match o with
  | Returns s => s
  | _ => otherwise
  end.

(** [observed] with a tempo of 120 stored, and the state one tick leaves
    from there. *)
Definition tempo_set : State := on_this (set_bpm (Some 120)) observed.

Definition ticked : State := result (_scheduler 3 tempo_set) tempo_set.

(** The state in which [start(b, a)] enters its first tick, once both
    arguments have passed the guards. *)
Definition configured (b a : Q) (s : State) : State :=
  let s := emit (ConsoleLog (MetronomeAt (Js.Num (Js.Fin b))
                                         (Js.Num (Js.Fin a)))) s in
  let s := if suspended (env s) then emit Resume s else s in
  let s := on_this (set_bpm (Some b)) s in
  let s := on_this (set_accent a) s in
  let s := on_this (set_isPlaying true) s in
  let s := on_this (set_beatCount (Some (-1)%Z)) s in
  on_this (set_startTimeStamp (Some (currentTime (env s)))) s.

(** The values [start] turns away: undefined, null, NaN and zero. *)
Definition falsy (v : Js.value) : Prop :=
  v = Js.Undefined \/ v = Js.Null \/ v = Js.Num Js.NaN
  \/ exists q : Q, v = Js.Num (Js.Fin q) /\ q == 0.

(** At most one timer is armed, and the object remembers it. *)
Definition at_most_one_timer (s : State) : Prop :=
  pending (env s) = []
  \/ exists h : nat,
       timerID (this s) = Some h
       /\ pending (env s) = [mkTimer h scheduleTimeout Scheduler].

(** The tone [_playSound] commands for one beep of the queue. *)
Definition beep_tone (t0 : Q) (e : Beep) : Q * Q :=
  (t0 + time e, if accented e then 330 else 220).

(** [with_rhythm] before an observer is registered. *)
Definition with_rhythm_unobserved : State :=
  on_this (set_onClick None) with_rhythm.

(** A queue whose first beep comes later than the second. *)
Definition with_rhythm_unsorted : State :=
  on_this (set_rhythm (Some [mkBeep 2 false; mkBeep 0 true])) with_rhythm.

(** The state [s] with the trace [tr] in place of its own. *)
Definition retraced (tr : list effect) (s : State) : State :=
  mkState (this s)
          (mkBrowser (currentTime (env s)) (suspended (env s))
                     (pending (env s)) (nextHandle (env s)) tr).

(** The queue is in the order of its times. *)
Definition in_time_order (queue : list Beep) : Prop :=
  StronglySorted (fun e1 e2 => time e1 <= time e2) queue.

(** The times handed to the observer [cb], in order. *)
Fixpoint click_times (cb : nat) (tr : list effect) : list Q :=
  match tr with
  | [] => []
  | Click cb' t :: tr' =>
      if Nat.eqb cb' cb then t :: click_times cb tr' else click_times cb tr'
  | _ :: tr' => click_times cb tr'
  end.

(** ** The recorder component that drives the metronome

    The part of [Recorder.svelte] that uses the metronome: the observer
    it registers, its [start] and [stop], and the MIDI listeners that feed
    [stop].  The component's variables are the record [Fields]; the
    metronome it owns is a [State].  What the component gets from outside
    is a parameter: the reading of [performance.now()], the blob the audio
    recorder hands back, the MIDI events.  [stop] is an async function: it
    is cut at its [await] into [stop_begin] and [stop_finish]. *)

From Stdlib Require String.

Module Recorder.

(** A note-on or note-off event: [e.port.id], [e.port.name],
    [e.message.channel], [e.note.number], [e.note.identifier],
    [e.note.attack], [e.timestamp]. *)
Record MidiEvent : Type := mkMidiEvent {
  portId : String.string;
  portName : String.string;
  channel : Z;
  number : Z;
  identifier : String.string;
  attack : Q;
  timestamp : Q
}.

(** An entry of [notes]. *)
Module Note.

Record t : Type := mk {
  port : String.string;
  channel : Z;
  pitch : Z;
  name : String.string;
  start : Js.num;
  end_ : Js.num;
  duration : Js.num;
  velocity : Q
}.

End Note.

(** What the component writes to the console. *)
Inductive entry : Type :=
| LogStart (t : Q)
| LogStop
| LogFirstClick (t : Q)
| LogNotes (l : list Note.t)
| LogClicks (l : list Q).

Record Fields : Type := mkFields {
  isRecording : bool;
  recordingStartTime : Js.value;
  recordingStopTime : Js.value;
  noteOns : list MidiEvent;
  noteOffs : list MidiEvent;
  audioRecorder : bool;            (* false while still undefined *)
  bpm : Js.value;
  beep : Js.value;
  accent : Js.value;
  audio : option nat;              (* the blob, once there is one *)
  notes : option (list Note.t);
  metronomeClicks : list Q;
  metronomeAccents : list Q;
  console : list entry
}.

Record App : Type := mkApp {
  component : Fields;
  metro : State
}.

Inductive answer : Type :=
| Done (app : App)
| Raised (app : App)
| NotModelled
| NoFuel.

(** The name under which the metronome knows the observer. *)
Definition observerName : nat := 0.

(** The observer given to [metro.onClick]:
    [(time, isAccent) => { metronomeClicks.push(time);
                           if (isAccent) metronomeAccents.push(time) }]. *)
Definition observer (time : Q) (isAccent : Js.value) (c : Fields) : Fields :=
  {| isRecording := isRecording c;
     recordingStartTime := recordingStartTime c;
     recordingStopTime := recordingStopTime c;
     noteOns := noteOns c;
     noteOffs := noteOffs c;
     audioRecorder := audioRecorder c;
     bpm := bpm c;
     beep := beep c;
     accent := accent c;
     audio := audio c;
     notes := notes c;
     metronomeClicks := metronomeClicks c ++ [time];
     metronomeAccents :=
       if Js.truthy isAccent then metronomeAccents c ++ [time]
       else metronomeAccents c;
     console := console c |}.

(** The calls of the observer that a stretch of the metronome's trace
    stands for.  [_playSound] calls [this.#onClick(time)], with the time
    alone, so the second parameter of the observer is [undefined]. *)
Fixpoint deliver (tr : list effect) (c : Fields) : Fields :=
  match tr with
  | [] => c
  | Click cb t :: tr' =>
      if Nat.eqb cb observerName
      then deliver tr' (observer t Js.Undefined c)
      else deliver tr' c
  | _ :: tr' => deliver tr' c
  end.

(** What the metronome has added to its trace between two states. *)
Definition added (s s' : State) : list effect :=
  skipn (List.length (trace (env s))) (trace (env s')).

(** A call into the metronome: the observer runs while the call does. *)
Definition call (f : State -> outcome) (app : App) : answer :=
  match f (metro app) with
  | Returns s' =>
      Done (mkApp (deliver (added (metro app) s') (component app)) s')
  | Throws s' =>
      Raised (mkApp (deliver (added (metro app) s') (component app)) s')
  | Unmodelled => NotModelled
  | OutOfFuel => NoFuel
  end.

(** The component once mounted: [new Metronome()], the observer
    registered, the settings read from the local storage. *)
Definition mounted (bpm0 beep0 accent0 : Js.value) (recorder : bool)
    (b : Browser) : App :=
  {| component :=
       {| isRecording := false;
          recordingStartTime := Js.Undefined;
          recordingStopTime := Js.Undefined;
          noteOns := [];
          noteOffs := [];
          audioRecorder := recorder;
          bpm := bpm0;
          beep := beep0;
          accent := accent0;
          audio := None;
          notes := None;
          metronomeClicks := [];
          metronomeAccents := [];
          console := [] |};
     metro := registerOnClick observerName (mkState fresh b) |}.

(** The listeners added in [onEnabled]. *)
Definition noteon (e : MidiEvent) (app : App) : App :=
  let c := component app in
  mkApp {| isRecording := isRecording c;
           recordingStartTime := recordingStartTime c;
           recordingStopTime := recordingStopTime c;
           noteOns := noteOns c ++ [e];
           noteOffs := noteOffs c;
           audioRecorder := audioRecorder c;
           bpm := bpm c;
           beep := beep c;
           accent := accent c;
           audio := audio c;
           notes := notes c;
           metronomeClicks := metronomeClicks c;
           metronomeAccents := metronomeAccents c;
           console := console c |}
        (metro app).

Definition noteoff (e : MidiEvent) (app : App) : App :=
  let c := component app in
  mkApp {| isRecording := isRecording c;
           recordingStartTime := recordingStartTime c;
           recordingStopTime := recordingStopTime c;
           noteOns := noteOns c;
           noteOffs := noteOffs c ++ [e];
           audioRecorder := audioRecorder c;
           bpm := bpm c;
           beep := beep c;
           accent := accent c;
           audio := audio c;
           notes := notes c;
           metronomeClicks := metronomeClicks c;
           metronomeAccents := metronomeAccents c;
           console := console c |}
        (metro app).

(** [x / y] on two values.  A non-zero number over zero is an infinity,
    which the model does not have: [None]. *)
Definition divide (x y : Js.value) : option Js.value :=
  match Js.toNumber x, Js.toNumber y with
  | Js.Fin a, Js.Fin b =>
      if Qeq_bool b 0
      then (if Qeq_bool a 0 then Some (Js.Num Js.NaN) else None)
      else Some (Js.Num (Js.Fin (a / b)))
  | _, _ => Some (Js.Num Js.NaN)
  end.

(** [start]; [now] is the reading of [performance.now()]. *)
Definition start (fuel : nat) (now : Q) (app : App) : answer :=
  let c := component app in
  let c := {| isRecording := true;
              recordingStartTime := recordingStartTime c;
              recordingStopTime := recordingStopTime c;
              noteOns := [];
              noteOffs := [];
              audioRecorder := audioRecorder c;
              bpm := bpm c;
              beep := beep c;
              accent := accent c;
              audio := None;
              notes := None;
              metronomeClicks := metronomeClicks c;
              metronomeAccents := metronomeAccents c;
              console := console c |} in
  if negb (audioRecorder c) then Raised (mkApp c (metro app))
  else
    match divide (bpm c) (beep c) with
    | None => NotModelled
    | Some tempo =>
        match call (fun s => start fuel tempo (accent c) s)
                   (mkApp c (metro app)) with
        | Done app1 =>
            let c := component app1 in
            Done (mkApp {| isRecording := isRecording c;
                           recordingStartTime := Js.Num (Js.Fin now);
                           recordingStopTime := recordingStopTime c;
                           noteOns := noteOns c;
                           noteOffs := noteOffs c;
                           audioRecorder := audioRecorder c;
                           bpm := bpm c;
                           beep := beep c;
                           accent := accent c;
                           audio := audio c;
                           notes := notes c;
                           metronomeClicks := [];
                           metronomeAccents := metronomeAccents c;
                           console := console c ++ [LogStart now] |}
                       (metro app1))
        | other => other
        end
    end.

(** A timer of the metronome comes due at clock time [t]. *)
Definition tick (fuel : nat) (t : Q) (app : App) : answer :=
  call (tick_at fuel t) app.

Fixpoint run (fuel : nat) (ts : list Q) (app : App) : answer :=
  match ts with
  | [] => Done app
  | t :: ts' =>
      match tick fuel t app with
      | Done app1 => run fuel ts' app1
      | other => other
      end
  end.

(** [stop] up to its [await]; [now] is the reading of
    [performance.now()]. *)
Definition stop_begin (now : Q) (app : App) : answer :=
  let c := component app in
  let c := {| isRecording := isRecording c;
              recordingStartTime := recordingStartTime c;
              recordingStopTime := recordingStopTime c;
              noteOns := noteOns c;
              noteOffs := noteOffs c;
              audioRecorder := audioRecorder c;
              bpm := bpm c;
              beep := beep c;
              accent := accent c;
              audio := audio c;
              notes := notes c;
              metronomeClicks := metronomeClicks c;
              metronomeAccents := metronomeAccents c;
              console := console c ++ [LogStop] |} in
  match call (fun s => Returns (stop s)) (mkApp c (metro app)) with
  | Done app1 =>
      let c := component app1 in
      let c := {| isRecording := isRecording c;
                  recordingStartTime := recordingStartTime c;
                  recordingStopTime := Js.Num (Js.Fin now);
                  noteOns := noteOns c;
                  noteOffs := noteOffs c;
                  audioRecorder := audioRecorder c;
                  bpm := bpm c;
                  beep := beep c;
                  accent := accent c;
                  audio := audio c;
                  notes := notes c;
                  metronomeClicks := metronomeClicks c;
                  metronomeAccents := metronomeAccents c;
                  console := console c |} in
      if negb (audioRecorder c) then Raised (mkApp c (metro app1))
      else Done (mkApp c (metro app1))
  | other => other
  end.

(** [x - y] and [x / c] for a constant [c] other than zero. *)
Definition minus (x y : Js.num) : Js.num :=
  match x, y with
  | Js.Fin a, Js.Fin b => Js.Fin (a - b)
  | _, _ => Js.NaN
  end.

Definition over (x : Js.num) (c : Q) : Js.num :=
  match x with
  | Js.Fin a => Js.Fin (a / c)
  | Js.NaN => Js.NaN
  end.

(** [noteOffMap.get(port.id)?.get(channel)?.get(number) ?? []]: [d3.group]
    keeps, under each key, the elements in the order of its input. *)
Definition noteOffCandidates (offs : list MidiEvent) (noteOn : MidiEvent)
    : list MidiEvent :=
  filter (fun d => String.eqb (portId d) (portId noteOn)
                   && Z.eqb (channel d) (channel noteOn)
                   && Z.eqb (number d) (number noteOn)) offs.

(** The function mapped over [noteOns]. *)
Definition toNote (startTime stopTime : Js.value) (offs : list MidiEvent)
    (noteOn : MidiEvent) : Note.t :=
  let noteOff :=
    filter (fun d => Qle_bool (timestamp noteOn) (timestamp d))
           (noteOffCandidates offs noteOn) in
  let end_ :=
    match noteOff with
    | [] => Js.toNumber stopTime
    | d :: _ => Js.Fin (timestamp d)
    end in
  let startInSeconds :=
    over (minus (Js.Fin (timestamp noteOn)) (Js.toNumber startTime)) 1000 in
  let endInSeconds := over (minus end_ (Js.toNumber startTime)) 1000 in
  {| Note.port := portName noteOn;
     Note.channel := channel noteOn;
     Note.pitch := number noteOn;
     Note.name := identifier noteOn;
     Note.start := startInSeconds;
     Note.end_ := endInSeconds;
     Note.duration := minus endInSeconds startInSeconds;
     Note.velocity := attack noteOn |}.

(** [metronomeClicks.length > 0 ? metronomeClicks[0] : 0] *)
Definition firstClick (clicks : list Q) : Q :=
  match clicks with
  | [] => 0
  | d :: _ => d
  end.

(** [stop] after its [await]; [blob] is what the audio recorder handed
    back. *)
Definition stop_finish (blob : nat) (app : App) : App :=
  let c := component app in
  let first := firstClick (metronomeClicks c) in
  let clicks := map (fun d => d - first) (metronomeClicks c) in
  let made := map (toNote (recordingStartTime c) (recordingStopTime c)
                          (noteOffs c)) (noteOns c) in
  mkApp {| isRecording := false;
           recordingStartTime := recordingStartTime c;
           recordingStopTime := recordingStopTime c;
           noteOns := noteOns c;
           noteOffs := noteOffs c;
           audioRecorder := audioRecorder c;
           bpm := bpm c;
           beep := beep c;
           accent := accent c;
           audio := Some blob;
           notes := Some made;
           metronomeClicks := clicks;
           metronomeAccents := map (fun d => d - first) (metronomeAccents c);
           console := console c ++ [LogFirstClick first; LogNotes made;
                                    LogClicks clicks] |}
        (metro app).

(** The metronome of the component calls the component's observer. *)
Definition wired (app : App) : Prop :=
  onClick (this (metro app)) = Some observerName.

(** What can happen to the component: the button pressed while not
    recording and while recording, the audio recorder handing back its
    blob, a timer of the metronome coming due, a MIDI event. *)
Inductive event : Type :=
| PressStart (now : Q)
| PressStop (now : Q)
| AudioStopped (blob : nat)
| TimerDue (t : Q)
| NoteOn (e : MidiEvent)
| NoteOff (e : MidiEvent).

Definition step (fuel : nat) (ev : event) (app : App) : answer :=
  match ev with
  | PressStart now => start fuel now app
  | PressStop now => stop_begin now app
  | AudioStopped blob => Done (stop_finish blob app)
  | TimerDue t => tick fuel t app
  | NoteOn e => Done (noteon e app)
  | NoteOff e => Done (noteoff e app)
  end.

(** The states the component gets into from [app0], by events that
    return or raise. *)
Inductive reachable (app0 : App) : App -> Prop :=
| reach_here : reachable app0 app0
| reach_done (fuel : nat) (ev : event) (app app' : App) :
    reachable app0 app -> step fuel ev app = Done app' ->
    reachable app0 app'
| reach_raised (fuel : nat) (ev : event) (app app' : App) :
    reachable app0 app -> step fuel ev app = Raised app' ->
    reachable app0 app'.

End Recorder.

(** A component with the default settings, its audio recorder ready. *)
Definition recorder_mounted : Recorder.App :=
  Recorder.mounted (Js.Num (Js.Fin 120)) (Js.Num (Js.Fin 1))
                   (Js.Num (Js.Fin 1)) true quiet.

(** The state an event leaves when it returns, for the examples. *)
Definition recorder_done (a : Recorder.answer) (otherwise : Recorder.App)
    : Recorder.App :=
  match a with
  | Recorder.Done app => app
  | _ => otherwise
  end.

(** The button pressed at 1000 ms, two timers due, the button pressed
    again at 2000 ms, the audio recorder done. *)
Definition recorder_started : Recorder.App :=
  recorder_done (Recorder.start 5 1000 recorder_mounted) recorder_mounted.

Definition recorder_played : Recorder.App :=
  recorder_done (Recorder.run 5 [1 # 10; 11 # 10] recorder_started)
                recorder_started.

Definition recorder_stopping : Recorder.App :=
  recorder_done (Recorder.stop_begin 2000 recorder_played) recorder_played.

Definition recorder_stopped : Recorder.App :=
  Recorder.stop_finish 0 recorder_stopping.


(** Names of a MIDI port and of two notes. *)
Module Names.

Import String.





End Names.






(** A component whose audio recorder could not be enabled. *)
Definition recorder_without_audio : Recorder.App :=
  Recorder.mounted (Js.Num (Js.Fin 120)) (Js.Num (Js.Fin 1))
                   (Js.Num (Js.Fin 1)) false quiet.

(** A component whose tempo field holds 0. *)
Definition recorder_without_tempo : Recorder.App :=
  Recorder.mounted (Js.Num (Js.Fin 0)) (Js.Num (Js.Fin 1))
                   (Js.Num (Js.Fin 1)) true quiet.

(** * Properties *)

(** ** Arithmetic of the model *)

Lemma ltb_lt (x y : Q) : Js.ltb x y = true <-> x < y.
Proof.
  unfold Js.ltb. rewrite negb_true_iff. split.
  - intros H. apply Qnot_le_lt. intros Hle.
    apply Qle_bool_iff in Hle. congruence.
  - intros H. destruct (Qle_bool y x) eqn:E; [|reflexivity].
    apply Qle_bool_iff in E. apply Qlt_not_le in H. contradiction.
Qed.

Lemma ltb_ge (x y : Q) : Js.ltb x y = false <-> y <= x.
Proof.
  unfold Js.ltb. rewrite negb_false_iff. apply Qle_bool_iff.
Qed.

Lemma ofNat_S (k : nat) : ofNat (S k) == ofNat k + 1.
Proof.
  unfold ofNat. rewrite Nat2Z.inj_succ. unfold Z.succ.
  rewrite inject_Z_plus. reflexivity.
Qed.

Lemma ofNat_0 : ofNat 0 == 0.
Proof. reflexivity. Qed.




Lemma pos_neq0 (x : Q) : 0 < x -> ~ x == 0.
Proof.
  intros H E. rewrite E in H. exact (Qlt_irrefl 0 H).
Qed.

(** Every rational is below some multiple of a positive step. *)
Lemma archimedes (x spb : Q) : 0 < spb -> exists m : nat, x <= ofNat m * spb.
Proof.
  intros Hspb.
  exists (Z.to_nat (Qceiling (x / spb))).
  assert (Hc : x / spb <= ofNat (Z.to_nat (Qceiling (x / spb)))).
  { eapply Qle_trans; [apply Qle_ceiling|].
    unfold ofNat. rewrite <- Zle_Qle. lia. }
  apply (Qmult_le_compat_r _ _ spb) in Hc; [|apply Qlt_le_weak; exact Hspb].
  assert (E : x / spb * spb == x) by (field; apply pos_neq0; exact Hspb).
  rewrite E in Hc. exact Hc.
Qed.

(** The number of iterations of the loop: the least [n] whose
    pre-increment note time has left the window. *)
Lemma loop_count (spb bound : Q) :
  0 < spb ->
  forall (m : nat) (next : Q),
    bound - next <= ofNat m * spb ->
    exists n : nat,
      (forall i : nat, (i < n)%nat -> next + ofNat i * spb < bound)
      /\ bound <= next + ofNat n * spb.
Proof.
  intros Hspb. induction m as [|m IH]; intros next Hm.
  - exists 0%nat. split; [intros i Hi; lia|].
    rewrite ofNat_0 in Hm. rewrite ofNat_0. lra.
  - destruct (Qlt_le_dec next bound) as [Hlt|Hge].
    + destruct (IH (next + spb)) as [n [Hin Hout]].
      { rewrite ofNat_S in Hm. lra. }
      exists (S n). split.
      * intros [|i] Hi.
        -- rewrite ofNat_0. lra.
        -- rewrite ofNat_S. specialize (Hin i ltac:(lia)). lra.
      * rewrite ofNat_S. lra.
    + exists 0%nat. split; [intros i Hi; lia|].
      rewrite ofNat_0. lra.
Qed.

(** ** Fuel *)

Lemma stable_const (r : outcome) : stable (fun _ => r).
Proof. intros fuel fuel' r' _ H _. exact H. Qed.

Lemma stable_bind (f : nat -> outcome) (k : State -> nat -> outcome) :
  stable f -> (forall s, stable (k s)) ->
  stable (fun fuel => s <- f fuel ;; k s fuel).
Proof.
  intros Hf Hk fuel fuel' r Hle Hr Hne. simpl in *.
  destruct (f fuel) as [s|s| |] eqn:E; simpl in Hr.
  - rewrite (Hf fuel fuel' (Returns s) Hle E ltac:(discriminate)). simpl.
    exact (Hk s fuel fuel' r Hle Hr Hne).
  - rewrite (Hf fuel fuel' (Throws s) Hle E ltac:(discriminate)). exact Hr.
  - rewrite (Hf fuel fuel' Unmodelled Hle E ltac:(discriminate)). exact Hr.
  - congruence.
Qed.

Lemma scheduler_loop_stable (a spb next : Q) (s : State) :
  stable (fun fuel => scheduler_loop fuel a spb next s).
Proof.
  intros fuel. revert next s.
  induction fuel as [|fuel IH]; intros next s fuel' r Hle Hr Hne.
  - simpl in Hr. congruence.
  - destruct fuel' as [|fuel']; [lia|].
    simpl in *.
    destruct (Js.ltb next (currentTime (env s) + lookAheadTime)); [|exact Hr].
    destruct (_playSound (next + spb) _ s) as [s1|s1| |]; simpl in *;
      try exact Hr.
    apply (IH _ _ fuel' r); [lia|exact Hr|exact Hne].
Qed.

Lemma _scheduler_stable (s : State) : stable (fun fuel => _scheduler fuel s).
Proof.
  unfold _scheduler.
  destruct (Qeq_bool (Js.ofNullable (bpm (this s))) 0).
  - apply stable_const.
  - apply (stable_bind _ (fun s1 _ => Returns (plan Scheduler s1))).
    + apply scheduler_loop_stable.
    + intros s1. apply stable_const.
Qed.

Lemma start_stable (v w : Js.value) (s : State) :
  stable (fun fuel => start fuel v w s).
Proof.
  unfold start.
  destruct (negb (Js.truthy v) || Js.isNaN (Js.toNumber v));
    [apply stable_const|].
  match goal with
  | |- context [if ?c then _ else _] => destruct c; [apply stable_const|]
  end.
  destruct (Js.toNumber v); [apply stable_const|].
  match goal with
  | |- context [match ?n with Js.NaN => _ | Js.Fin _ => _ end] =>
      destruct n; [apply stable_const|]
  end.
  apply _scheduler_stable.
Qed.

Lemma fire_stable (h : nat) (s : State) : stable (fun fuel => fire fuel h s).
Proof.
  unfold fire. destruct (armed h s) as [tm|]; [|apply stable_const].
  destruct (action tm); [apply _scheduler_stable|apply stable_const].
Qed.

Lemma tick_at_stable (t : Q) (s : State) :
  stable (fun fuel => tick_at fuel t s).
Proof.
  unfold tick_at. destruct (timerID (this s));
    [apply fire_stable|apply stable_const].
Qed.

Lemma ticks_stable (ts : list Q) : forall s, stable (fun fuel => ticks fuel ts s).
Proof.
  induction ts as [|t ts IH]; intros s; simpl.
  - apply stable_const.
  - apply (stable_bind (fun fuel => tick_at fuel t s)
                       (fun s1 fuel => ticks fuel ts s1)).
    + apply tick_at_stable.
    + exact IH.
Qed.

Lemma session_stable (v w : Js.value) (ts : list Q) (s : State) :
  stable (fun fuel => session fuel v w ts s).
Proof.
  unfold session.
  apply (stable_bind (fun fuel => start fuel v w s)
                     (fun s1 fuel => ticks fuel ts s1)).
  - apply start_stable.
  - apply ticks_stable.
Qed.

(** A run that returns with enough fuel returns the same state with any
    fuel that lets it return at all. *)
Lemma stable_returns (f : nat -> outcome) (fuel0 fuel : nat) (s0 s : State) :
  stable f ->
  (forall fuel', (fuel0 <= fuel')%nat -> f fuel' = Returns s0) ->
  f fuel = Returns s -> s = s0.
Proof.
  intros Hf H0 Hs.
  pose proof (Hf fuel (Nat.max fuel fuel0) (Returns s)
                 (Nat.le_max_l _ _) Hs ltac:(discriminate)) as H1.
  rewrite (H0 _ (Nat.le_max_r _ _)) in H1. congruence.
Qed.

(** ** One run of the loop *)

Lemma scheduler_loop_runs (cb : nat) (a spb : Q) :
  forall (n fuel : nat) (next : Q) (s : State) (c : Z),
    onClick (this s) = Some cb ->
    beatCount (this s) = Some c ->
    (forall i : nat, (i < n)%nat ->
       next + ofNat i * spb < currentTime (env s) + lookAheadTime) ->
    currentTime (env s) + lookAheadTime <= next + ofNat n * spb ->
    (n < fuel)%nat ->
    scheduler_loop fuel a spb next s
    = Returns (mkState (set_beatCount (Some (c + Z.of_nat n)%Z) (this s))
                       (traced (beeps cb a spb next c n) (env s))).
Proof.
  induction n as [|n IH]; intros fuel next s c Hcb Hc Hin Hout Hfuel;
    (destruct fuel as [|fuel]; [lia|]); simpl.
  - rewrite ofNat_0 in Hout.
    assert (E : Js.ltb next (currentTime (env s) + lookAheadTime) = false)
      by (apply ltb_ge; lra).
    rewrite E. destruct s as [m e]; destruct m; destruct e; simpl in *.
    subst. unfold set_beatCount, traced; simpl.
    rewrite Z.add_0_r, app_nil_r. reflexivity.
  - assert (E : Js.ltb next (currentTime (env s) + lookAheadTime) = true).
    { apply ltb_lt. specialize (Hin 0%nat ltac:(lia)).
      rewrite ofNat_0 in Hin. lra. }
    rewrite E. unfold _playSound. rewrite Hcb. simpl.
    rewrite (IH fuel (next + spb) _ (c + 1)%Z); simpl.
    + destruct s as [m e]; destruct m; destruct e; simpl in *.
      subst. unfold set_beatCount, traced; simpl.
      rewrite <- !app_assoc. simpl.
      replace (c + 1 + Z.of_nat n)%Z with (c + Z.pos (Pos.of_succ_nat n))%Z
        by lia.
      reflexivity.
    + exact Hcb.
    + rewrite Hc. reflexivity.
    + intros i Hi. specialize (Hin (S i) ltac:(lia)).
      rewrite ofNat_S in Hin. lra.
    + rewrite ofNat_S in Hout. lra.
    + lia.
Qed.

(** ** Traces *)

Lemma tones_app (tr1 tr2 : list effect) :
  tones (tr1 ++ tr2) = tones tr1 ++ tones tr2.
Proof.
  induction tr1 as [|e tr1 IH]; simpl; [reflexivity|].
  destruct e; simpl; rewrite IH; reflexivity.
Qed.

Lemma inject_Z_pred (k : nat) : inject_Z (Z.of_nat k - 1) == ofNat k - 1.
Proof.
  unfold ofNat, Z.sub. rewrite inject_Z_plus, inject_Z_opp. reflexivity.
Qed.

Lemma tones_beeps (cb : nat) (t0 b a : Q) :
  forall (n k0 : nat) (next : Q),
    next == t0 + (ofNat k0 - 1) * (60 / b) ->
    Forall2 (beat_ok t0 b a)
            (tones (beeps cb a (60 / b) next (Z.of_nat k0 - 1) n))
            (seq k0 n).
Proof.
  induction n as [|n IH]; intros k0 next Hnext; simpl.
  - constructor.
  - constructor.
    + split; simpl; [|reflexivity].
      unfold beatTime. rewrite Hnext. ring.
    + replace (Z.of_nat k0 - 1 + 1)%Z with (Z.of_nat (S k0) - 1)%Z by lia.
      apply IH. rewrite ofNat_S, Hnext. ring.
Qed.

Lemma Qeq_bool_pos (x : Q) : 0 < x -> Qeq_bool x 0 = false.
Proof.
  intros H. destruct (Qeq_bool x 0) eqn:E; [|reflexivity].
  apply Qeq_bool_eq in E. exfalso. exact (pos_neq0 x H E).
Qed.

Lemma spb_pos (b : Q) : 0 < b -> 0 < 60 / b.
Proof.
  intros H. apply Qlt_shift_div_l; [exact H|]. lra.
Qed.

Lemma _scheduler_playing (s0 s : State) (b a : Q) (N cb : nat) :
  0 < b ->
  onClick (this s0) = Some cb ->
  ready s0 b a N s ->
  exists (N' fuel0 : nat) (s' : State),
    (N <= N')%nat
    /\ (forall fuel, (fuel0 <= fuel)%nat -> _scheduler fuel s = Returns s')
    /\ playing s0 b a (currentTime (env s)) N' s'.
Proof.
  intros Hb Hcb (Hplay & Hbpm & Hacc & Hstart & Hcount & Hobs & Htr & Hdue).
  pose proof (spb_pos b Hb) as Hspb.
  set (next := currentTime (env s0) + inject_Z (Z.of_nat N - 1) * (60 / b)).
  set (bound := currentTime (env s) + lookAheadTime).
  destruct (archimedes (bound - next) (60 / b) Hspb) as [m Hm].
  destruct (loop_count (60 / b) bound Hspb m next Hm) as [n [Hin Hout]].
  exists (N + n)%nat, (S n).
  eexists. split; [lia|]. split.
  - intros fuel Hfuel. unfold _scheduler.
    rewrite Hbpm, Hstart, Hcount, Hacc. simpl Js.ofNullable.
    simpl Js.ofNullableZ. rewrite (Qeq_bool_pos b Hb). fold next.
    rewrite (scheduler_loop_runs cb a (60 / b) n fuel next s
               (Z.of_nat N - 1)); try assumption; try lia.
    + simpl. reflexivity.
    + congruence.
  - assert (Hnext : next == currentTime (env s0) + (ofNat N - 1) * (60 / b)).
    { unfold next. rewrite inject_Z_pred. reflexivity. }
    unfold playing, plan, armed; simpl.
    split; [exact Hplay|]. split; [exact Hbpm|]. split; [exact Hacc|].
    split; [exact Hstart|]. split; [f_equal; lia|]. split; [exact Hobs|].
    split.
    { exists (nextHandle (env s)). rewrite Nat.eqb_refl. split; reflexivity. }
    split; [reflexivity|]. split.
    { destruct Htr as [l [Hl Hok]].
      exists (l ++ tones (beeps cb a (60 / b) next (Z.of_nat N - 1) n)).
      split.
      - rewrite tones_app, Hl, app_assoc. reflexivity.
      - rewrite seq_app. apply Forall2_app; [exact Hok|].
        apply tones_beeps. exact Hnext. }
    intros k. fold bound. split; intros Hk.
    + destruct (Nat.lt_ge_cases k N) as [HkN|HkN].
      * apply Hdue. exact HkN.
      * specialize (Hin (k - N)%nat ltac:(lia)).
        rewrite Hnext in Hin.
        assert (E : ofNat k == ofNat N + ofNat (k - N)).
        { unfold ofNat. rewrite <- inject_Z_plus.
          replace (Z.of_nat N + Z.of_nat (k - N))%Z with (Z.of_nat k) by lia.
          reflexivity. }
        rewrite E. lra.
    + destruct (Nat.lt_ge_cases k (N + n)) as [HkN|HkN]; [exact HkN|].
      exfalso. rewrite Hnext in Hout.
      assert (E : ofNat N + ofNat n <= ofNat k).
      { unfold ofNat. rewrite <- inject_Z_plus, <- Zle_Qle. lia. }
      assert (E' : (ofNat N + ofNat n) * (60 / b) <= ofNat k * (60 / b)).
      { apply Qmult_le_compat_r; [exact E|lra]. }
      lra.
Qed.

Lemma last_cons (ts : list Q) : forall t d : Q, last (t :: ts) d = last ts t.
Proof.
  induction ts as [|u ts IH]; intros t d; [reflexivity|].
  change (last (t :: u :: ts) d) with (last (u :: ts) d).
  rewrite (IH u d), (IH u t). reflexivity.
Qed.

Lemma Qeq_bool_neq (x : Q) : ~ x == 0 -> Qeq_bool x 0 = false.
Proof.
  intros H. destruct (Qeq_bool x 0) eqn:E; [|reflexivity].
  apply Qeq_bool_eq in E. contradiction.
Qed.

Lemma start_ready (b a : Q) (s : State) :
  ~ b == 0 -> ~ a == 0 ->
  exists s1 : State,
    (forall fuel,
        start fuel (Js.Num (Js.Fin b)) (Js.Num (Js.Fin a)) s
        = _scheduler fuel s1)
    /\ currentTime (env s1) = currentTime (env s)
    /\ ready s b a 0 s1.
Proof.
  intros Hb Ha.
  unfold start. simpl. rewrite (Qeq_bool_neq b Hb), (Qeq_bool_neq a Ha). simpl.
  eexists. split; [intros fuel; reflexivity|].
  destruct (suspended (env s)); simpl; (split; [reflexivity|]);
    unfold ready; simpl; repeat (split; [reflexivity|]);
    (split; [|intros k Hk; lia]);
    exists []; rewrite !tones_app; simpl; rewrite !app_nil_r;
    (split; [reflexivity|constructor]).
Qed.

Lemma tick_at_playing (s0 s : State) (b a T T' : Q) (N cb : nat) :
  0 < b ->
  onClick (this s0) = Some cb ->
  playing s0 b a T N s ->
  T <= T' ->
  exists (N' fuel0 : nat) (s' : State),
    (N <= N')%nat
    /\ (forall fuel, (fuel0 <= fuel)%nat -> tick_at fuel T' s = Returns s')
    /\ playing s0 b a T' N' s'.
Proof.
  intros Hb Hcb
    (Hplay & Hbpm & Hacc & Hstart & Hcount & Hobs & [h [Hid Harm]] & Hnow
     & Htr & Hdue) HT.
  destruct (_scheduler_playing s0 (clearTimeout (Some h) (setClock T' s))
              b a N cb Hb Hcb) as (N' & fuel0 & s' & HN & Hrun & Hinv).
  { unfold ready; simpl.
    repeat (split; [assumption|]).
    intros k Hk. apply Hdue in Hk. lra. }
  exists N', fuel0, s'. split; [exact HN|]. split; [|exact Hinv].
  intros fuel Hfuel. unfold tick_at, fire. rewrite Hid.
  change (armed h (setClock T' s)) with (armed h s). rewrite Harm. simpl.
  apply Hrun. exact Hfuel.
Qed.

Lemma ticks_playing (s0 : State) (b a : Q) (cb : nat) :
  0 < b ->
  onClick (this s0) = Some cb ->
  forall (ts : list Q) (s : State) (T : Q) (N : nat),
    playing s0 b a T N s ->
    nondecreasing T ts ->
    exists (N' fuel0 : nat) (s' : State),
      (N <= N')%nat
      /\ (forall fuel, (fuel0 <= fuel)%nat -> ticks fuel ts s = Returns s')
      /\ playing s0 b a (last ts T) N' s'.
Proof.
  intros Hb Hcb. induction ts as [|t ts IH]; intros s T N Hinv Hts.
  - exists N, 0%nat, s. split; [lia|]. split; [reflexivity|exact Hinv].
  - destruct Hts as [Ht Hts].
    destruct (tick_at_playing s0 s b a T t N cb Hb Hcb Hinv Ht)
      as (N1 & f1 & s1 & HN1 & Hrun1 & Hinv1).
    destruct (IH s1 t N1 Hinv1 Hts) as (N2 & f2 & s2 & HN2 & Hrun2 & Hinv2).
    exists N2, (Nat.max f1 f2), s2. split; [lia|]. split.
    + intros fuel Hfuel. cbn [ticks].
      rewrite (Hrun1 fuel) by lia. simpl. apply Hrun2. lia.
    + rewrite last_cons. exact Hinv2.
Qed.

(** A session started with a positive tempo returns, playing, whatever
    the (non-decreasing) clock times of its ticks. *)
Lemma session_playing (s : State) (b a : Q) (cb : nat) (ts : list Q) :
  0 < b -> ~ a == 0 ->
  onClick (this s) = Some cb ->
  nondecreasing (currentTime (env s)) ts ->
  exists (N fuel0 : nat) (s' : State),
    (forall fuel, (fuel0 <= fuel)%nat ->
       session fuel (Js.Num (Js.Fin b)) (Js.Num (Js.Fin a)) ts s = Returns s')
    /\ playing s b a (last ts (currentTime (env s))) N s'.
Proof.
  intros Hb Ha Hcb Hts.
  destruct (start_ready b a s (pos_neq0 b Hb) Ha)
    as (s1 & Hstart & Hclock & Hready).
  destruct (_scheduler_playing s s1 b a 0 cb Hb Hcb Hready)
    as (N1 & f1 & s2 & _ & Hrun1 & Hinv1).
  rewrite Hclock in Hinv1.
  destruct (ticks_playing s b a cb Hb Hcb ts s2 _ N1 Hinv1 Hts)
    as (N2 & f2 & s3 & _ & Hrun2 & Hinv2).
  exists N2, (Nat.max f1 f2), s3. split; [|exact Hinv2].
  intros fuel Hfuel. unfold session.
  rewrite Hstart, (Hrun1 fuel) by lia. simpl. apply Hrun2. lia.
Qed.

(** Whatever fuel lets the session return, it returns playing. *)
Lemma session_returns (s s' : State) (b a : Q) (cb fuel : nat) (ts : list Q) :
  0 < b -> ~ a == 0 ->
  onClick (this s) = Some cb ->
  nondecreasing (currentTime (env s)) ts ->
  session fuel (Js.Num (Js.Fin b)) (Js.Num (Js.Fin a)) ts s = Returns s' ->
  exists N : nat, playing s b a (last ts (currentTime (env s))) N s'.
Proof.
  intros Hb Ha Hcb Hts Hrun.
  destruct (session_playing s b a cb ts Hb Ha Hcb Hts)
    as (N & fuel0 & s0 & Hrun0 & Hinv).
  exists N.
  rewrite (stable_returns _ fuel0 fuel s0 s' (session_stable _ _ ts s)
             Hrun0 Hrun).
  exact Hinv.
Qed.

(** ** The beats of a session *)

Lemma Forall2_seq_nth {A : Type} (R : A -> nat -> Prop) :
  forall (l : list A) (k0 n i : nat) (x : A),
    Forall2 R l (seq k0 n) -> nth_error l i = Some x -> R x (k0 + i)%nat.
Proof.
  induction l as [|y l IH]; intros k0 n i x HF Hi.
  - destruct i; discriminate.
  - destruct n as [|n]; simpl in HF; inversion HF; subst.
    destruct i as [|i]; simpl in Hi.
    + injection Hi as <-. rewrite Nat.add_0_r. assumption.
    + replace (k0 + S i)%nat with (S k0 + i)%nat by lia.
      eapply IH; eassumption.
Qed.

Lemma Forall2_seq_length {A : Type} (R : A -> nat -> Prop)
    (l : list A) (k0 n : nat) :
  Forall2 R l (seq k0 n) -> length l = n.
Proof.
  intros HF. apply Forall2_length in HF. rewrite length_seq in HF. exact HF.
Qed.

(** The beats a playing session has put out, read off the invariant. *)
Lemma playing_beats (s s' : State) (b a T : Q) (N : nat) :
  playing s b a T N s' ->
  exists l : list (Q * Q),
    tones (trace (env s')) = tones (trace (env s)) ++ l
    /\ length l = N
    /\ (forall (k : nat) (x : Q * Q),
          nth_error l k = Some x -> beat_ok (currentTime (env s)) b a x k)
    /\ (forall k : nat, (k < N)%nat <->
          beatTime (currentTime (env s)) b k - 60 / b < T + lookAheadTime).
Proof.
  intros (_ & _ & _ & _ & _ & _ & _ & _ & [l [Hl Hok]] & Hdue).
  exists l. split; [exact Hl|]. split; [|split].
  - exact (Forall2_seq_length _ _ _ _ Hok).
  - intros k x Hk. exact (Forall2_seq_nth _ l 0 N k x Hok Hk).
  - intros k. rewrite (Hdue k). unfold beatTime.
    assert (E : currentTime (env s) + ofNat k * (60 / b) - 60 / b
                == currentTime (env s) + (ofNat k - 1) * (60 / b)) by ring.
    rewrite E. reflexivity.
Qed.



Lemma bind_Returns (o : outcome) : (s1 <- o ;; Returns s1) = o.
Proof. destruct o; reflexivity. Qed.


(** ** The tempo scheduler *)





(** ** The accent test on a whole-number accent *)






(** [start] alone is the session without further ticks. *)
Lemma start_playing (s : State) (b a : Q) (cb : nat) :
  0 < b -> ~ a == 0 ->
  onClick (this s) = Some cb ->
  (exists (fuel : nat) (s' : State),
      start fuel (Js.Num (Js.Fin b)) (Js.Num (Js.Fin a)) s = Returns s')
  /\ (forall (fuel : nat) (s' : State),
        start fuel (Js.Num (Js.Fin b)) (Js.Num (Js.Fin a)) s = Returns s' ->
        exists N : nat, playing s b a (currentTime (env s)) N s').
Proof.
  intros Hb Ha Hcb. split.
  - destruct (session_playing s b a cb [] Hb Ha Hcb I)
      as (N & fuel0 & s' & Hrun & _).
    exists fuel0, s'. specialize (Hrun fuel0 (Nat.le_refl _)).
    unfold session in Hrun. cbn [ticks] in Hrun.
    rewrite bind_Returns in Hrun. exact Hrun.
  - intros fuel s' Hrun.
    apply (session_returns s s' b a cb fuel [] Hb Ha Hcb I).
    unfold session. cbn [ticks]. rewrite bind_Returns. exact Hrun.
Qed.

(** C5.  [start(120, 4)] at clock time 0: the first tick, run from within
    [start], commands exactly two tones, beat 0 at time 0 (accented) and
    beat 1 at time 0.5 (not accented).  Beat 1 lies exactly at the end of
    the lookahead window, [currentTime + lookAheadTime]; it is emitted
    because the guard compares the note time before the increment. *)
Theorem first_tick_at_120_emits_two_beats (s : State) (cb : nat) :
  onClick (this s) = Some cb ->
  currentTime (env s) = 0 ->
  (exists (fuel : nat) (s' : State),
      start fuel (Js.Num (Js.Fin 120)) (Js.Num (Js.Fin 4)) s = Returns s')
  /\ (forall (fuel : nat) (s' : State),
        start fuel (Js.Num (Js.Fin 120)) (Js.Num (Js.Fin 4)) s = Returns s' ->
        exists x0 x1 : Q * Q,
          tones (trace (env s')) = tones (trace (env s)) ++ [x0; x1]
          /\ fst x0 == 0 /\ snd x0 = 330
          /\ fst x1 == 5 # 10 /\ snd x1 = 220
          /\ fst x1 == currentTime (env s) + lookAheadTime
          /\ beatCount (this s') = Some 1%Z).
Proof.
  intros Hcb Hnow.
  assert (Hb : 0 < 120) by reflexivity.
  assert (Ha : ~ 4 == 0) by discriminate.
  destruct (start_playing s 120 4 cb Hb Ha Hcb) as [Hex Hall].
  split; [exact Hex|].
  intros fuel s' Hrun. destruct (Hall fuel s' Hrun) as [N Hinv].
  destruct (playing_beats s s' 120 4 _ N Hinv) as (l & Hl & Hlen & Hnth & HN).
  assert (HN2 : N = 2%nat).
  { assert (H1 : (1 < N)%nat).
    { apply HN. rewrite Hnow. vm_compute. reflexivity. }
    assert (H2 : ~ (2 < N)%nat).
    { intros H. apply HN in H. rewrite Hnow in H. vm_compute in H.
      discriminate. }
    lia. }
  subst N.
  destruct l as [|x0 [|x1 [|x2 l]]]; try discriminate.
  destruct (Hnth 0%nat x0 eq_refl) as [Ht0 Hf0].
  destruct (Hnth 1%nat x1 eq_refl) as [Ht1 Hf1].
  rewrite Hnow in Ht0, Ht1.
  exists x0, x1. split; [exact Hl|].
  split; [rewrite Ht0; reflexivity|]. split; [exact Hf0|].
  split; [rewrite Ht1; reflexivity|]. split; [exact Hf1|].
  split; [rewrite Ht1, Hnow; reflexivity|].
  destruct Hinv as (_ & _ & _ & _ & Hcount & _). exact Hcount.
Qed.

Lemma first_tick_at_120_emits_two_beats_witness :
  exists (fuel : nat) (s' : State),
    start fuel (Js.Num (Js.Fin 120)) (Js.Num (Js.Fin 4)) observed = Returns s'.
Proof.
  apply (first_tick_at_120_emits_two_beats observed 0); reflexivity.
Defined.

(** ** Termination of a tick *)

Lemma scheduler_loop_S (fuel : nat) (a spb next : Q) (s : State) :
  scheduler_loop (S fuel) a spb next s
  = if Js.ltb next (currentTime (env s) + lookAheadTime) then
      s1 <- _playSound (next + spb)
              (if isAccent a (beatCount (this s)) then 330 else 220) s ;;
      scheduler_loop fuel a spb (next + spb) (incr_beatCount s1)
    else Returns s.
Proof. reflexivity. Qed.


(** With a step that is not positive the loop, once entered, never ends. *)
Lemma scheduler_loop_diverges (a spb : Q) (cb : nat) :
  spb <= 0 ->
  forall (fuel : nat) (next : Q) (s : State),
    onClick (this s) = Some cb ->
    next < currentTime (env s) + lookAheadTime ->
    scheduler_loop fuel a spb next s = OutOfFuel.
Proof.
  intros Hspb. induction fuel as [|fuel IH]; intros next s Hcb Hnext.
  - reflexivity.
  - rewrite scheduler_loop_S.
    rewrite (proj2 (ltb_lt _ _) Hnext).
    unfold _playSound. rewrite Hcb. cbn [bind].
    apply IH; simpl; [exact Hcb|lra].
Qed.




(** ** Validation in [start] *)

(** A tempo that is falsy or not a number is turned away with a
    diagnostic and nothing else happens. *)
Lemma start_rejects_bpm (fuel : nat) (v w : Js.value) (s : State) :
  Js.truthy v = false \/ Js.isNaN (Js.toNumber v) = true ->
  start fuel v w s = Returns (emit (ConsoleError (InvalidBpm v)) s).
Proof.
  intros H. unfold start.
  assert (E : negb (Js.truthy v) || Js.isNaN (Js.toNumber v) = true).
  { destruct H as [H|H]; rewrite H; [reflexivity|apply orb_true_r]. }
  rewrite E. reflexivity.
Qed.

(** So is an explicit accent that is falsy or not a number. *)
Lemma start_rejects_accent (fuel : nat) (v w : Js.value) (s : State) :
  negb (Js.truthy v) || Js.isNaN (Js.toNumber v) = false ->
  w <> Js.Undefined ->
  Js.truthy w = false \/ Js.isNaN (Js.toNumber w) = true ->
  start fuel v w s = Returns (emit (ConsoleError (InvalidAccent w)) s).
Proof.
  intros Hv Hw H. unfold start. rewrite Hv.
  assert (E : negb (Js.truthy w) || Js.isNaN (Js.toNumber w) = true).
  { destruct H as [H|H]; rewrite H; [reflexivity|apply orb_true_r]. }
  destruct w; [contradiction| |]; rewrite E; reflexivity.
Qed.

(** C4 names negative values among the rejected ones; the code accepts
    them.  [start(-60, 4)] reports no diagnostic, starts playback and
    rewrites the playback state; the first tick after clock time 0.5 then
    never ends. *)
Theorem start_accepts_negative_tempo :
  (forall fuel : nat,
      start (S fuel) (Js.Num (Js.Fin (-(60)))) (Js.Num (Js.Fin 4)) observed
      = Returns after_negative_start)
  /\ isPlaying (this observed) = false
  /\ isPlaying (this after_negative_start) = true
  /\ (forall fuel : nat,
        tick_at fuel (6 # 10) after_negative_start = OutOfFuel).
Proof.
  split; [|split; [|split]]; try reflexivity.
  intros fuel. unfold tick_at, fire. simpl.
  unfold _scheduler. simpl.
  rewrite (scheduler_loop_diverges _ _ 0%nat);
    [reflexivity|discriminate|reflexivity|reflexivity].
Qed.

(** ** [toggle] *)

(** C10.  On a metronome that is not playing and remembers no tempo, as a
    new one does, [toggle()] without arguments does not begin playback:
    the remembered tempo is [null], [start] turns it away with a
    diagnostic, and no field of the object and no timer changes. *)
Theorem toggle_without_tempo_is_rejected (fuel : nat) (s : State) :
  isPlaying (this s) = false ->
  bpm (this s) = None ->
  exists s' : State,
    toggle fuel Js.Undefined Js.Undefined s = Returns s'
    /\ this s' = this s
    /\ isPlaying (this s') = false
    /\ env s' = traced [ConsoleError (InvalidBpm Js.Null)] (env s).
Proof.
  intros Hplay Hbpm.
  exists (emit (ConsoleError (InvalidBpm Js.Null)) s).
  split; [|split; [reflexivity|split; [exact Hplay|reflexivity]]].
  unfold toggle. rewrite Hplay, Hbpm.
  apply start_rejects_bpm. left. reflexivity.
Qed.

Lemma toggle_without_tempo_is_rejected_witness :
  exists s' : State,
    toggle 1 Js.Undefined Js.Undefined created = Returns s'
    /\ this s' = this created
    /\ isPlaying (this s') = false
    /\ env s' = traced [ConsoleError (InvalidBpm Js.Null)] (env created).
Proof.
  apply (toggle_without_tempo_is_rejected 1 created); reflexivity.
Defined.

(** ** [stop] *)

Lemma filter_twice {A : Type} (f : A -> bool) (l : list A) :
  filter f (filter f l) = filter f l.
Proof.
  induction l as [|x l IH]; simpl; [reflexivity|].
  destruct (f x) eqn:E; simpl; [rewrite E, IH|rewrite IH]; reflexivity.
Qed.

Lemma filter_not_found {A : Type} (f : A -> bool) (l : list A) :
  find f l = None -> filter (fun x => negb (f x)) l = l.
Proof.
  induction l as [|x l IH]; simpl; [reflexivity|].
  destruct (f x); [discriminate|]. intros H. simpl. rewrite (IH H).
  reflexivity.
Qed.

(** [stop] disarms the timer the object remembers. *)
Lemma stop_disarms_remembered_timer (s : State) (h : nat) :
  timerID (this s) = Some h -> armed h (stop s) = None.
Proof.
  intros Hid. unfold stop, armed. cbn [emit on_env this env timerID].
  rewrite Hid. simpl.
  induction (pending (env s)) as [|tm l IH]; simpl; [reflexivity|].
  destruct (handle tm =? h)%nat eqn:E; simpl; [exact IH|].
  rewrite E. exact IH.
Qed.

(** C7.  [stop(); stop()] leaves the object, the timers, the clock and the
    sound as [stop()] does; only the console gets its line a second time.
    After [stop] the metronome is not playing, and on a metronome that is
    not playing [stop] changes no field of the object; when moreover the
    remembered timer is no longer armed it changes nothing but the
    console. *)
Theorem stop_is_idempotent (s : State) :
  this (stop (stop s)) = this (stop s)
  /\ pending (env (stop (stop s))) = pending (env (stop s))
  /\ currentTime (env (stop (stop s))) = currentTime (env (stop s))
  /\ suspended (env (stop (stop s))) = suspended (env (stop s))
  /\ nextHandle (env (stop (stop s))) = nextHandle (env (stop s))
  /\ trace (env (stop (stop s))) = trace (env (stop s)) ++ [ConsoleLog Stopped]
  /\ isPlaying (this (stop s)) = false
  /\ (isPlaying (this s) = false -> this (stop s) = this s)
  /\ (isPlaying (this s) = false ->
      (forall h, timerID (this s) = Some h -> armed h s = None) ->
      stop s = emit (ConsoleLog Stopped) s).
Proof.
  destruct s as [m e]. destruct m as [pl id b a t0 c r o].
  destruct e as [now su pe nh tr].
  unfold stop, armed; simpl.
  destruct id as [h|]; simpl.
  - repeat split.
    + apply filter_twice.
    + intros ->. reflexivity.
    + intros -> H. specialize (H h eq_refl).
      unfold emit, on_env, on_this, set_isPlaying; simpl.
      rewrite (filter_not_found _ _ H). reflexivity.
  - repeat split.
    + intros ->. reflexivity.
    + intros -> _. reflexivity.
Qed.

Lemma stop_is_idempotent_witness :
  this (stop created) = this created
  /\ stop created = emit (ConsoleLog Stopped) created.
Proof.
  destruct (stop_is_idempotent created)
    as (_ & _ & _ & _ & _ & _ & _ & Hthis & Hall).
  split.
  - apply Hthis. reflexivity.
  - apply Hall; [reflexivity|]. intros h H. discriminate H.
Defined.

(** ** Cancellation *)

(** C8 fails on the code when [start] is called on a playing metronome:
    [#timerID] only remembers the timer armed last, so [stop] clears that
    one and the timer of the first [start] stays armed.  When it comes due
    the tick runs, commands a further beat and arms itself again, although
    the metronome is stopped. *)
Theorem stop_leaves_earlier_timer_armed :
  exists (s3 s4 : State) (x : Q * Q),
    started_twice_then_stopped = Returns s3
    /\ isPlaying (this s3) = false
    /\ armed 0 s3 = Some (mkTimer 0 scheduleTimeout Scheduler)
    /\ fire 3 0 (setClock (1 # 10) s3) = Returns s4
    /\ tones (trace (env s4)) = tones (trace (env s3)) ++ [x]
    /\ fst x == 1 /\ snd x = 220
    /\ isPlaying (this s4) = false
    /\ pending (env s4) = [mkTimer 2 scheduleTimeout Scheduler].
Proof.
  do 3 eexists.
  split; [vm_compute; reflexivity|].
  split; [reflexivity|]. split; [reflexivity|].
  split; [vm_compute; reflexivity|].
  split; [vm_compute; reflexivity|].
  split; [reflexivity|]. split; [reflexivity|].
  split; reflexivity.
Qed.

(** ** The rhythm scheduler *)

Lemma rhythm_loop_pops (cb : nat) (endTime : Q) :
  forall (queue : list Beep) (s : State),
    onClick (this s) = Some cb ->
    rhythm (this s) = Some queue ->
    let t0 := Js.ofNullable (startTimeStamp (this s)) in
    exists popped rest : list Beep,
      queue = popped ++ rest
      /\ Forall (fun e => t0 + time e <= endTime) popped
      /\ not_due t0 endTime rest
      /\ rhythm_loop endTime queue s
         = Returns (mkState (set_rhythm (Some rest) (this s))
                            (traced (flat_map (beep_effects cb t0) popped)
                                    (env s))).
Proof.
  induction queue as [|e queue IH]; intros s Hcb Hq t0.
  - exists [], []. repeat split; [constructor|]. simpl.
    destruct s as [m b]; destruct m; destruct b; simpl in *. subst.
    unfold traced; simpl. rewrite app_nil_r. reflexivity.
  - cbn [rhythm_loop]. fold t0.
    destruct (Js.ltb endTime (t0 + time e)) eqn:E.
    + exists [], (e :: queue). apply ltb_lt in E.
      repeat split; [constructor|exact E|].
      destruct s as [m b]; destruct m; destruct b; simpl in *. subst.
      unfold traced; simpl. rewrite app_nil_r. reflexivity.
    + apply ltb_ge in E. unfold _playSound. simpl. rewrite Hcb. cbn [bind].
      match goal with
      | |- context [rhythm_loop endTime queue ?s1] =>
          destruct (IH s1 Hcb eq_refl) as (popped & rest & Hsplit & Hdue
                                           & Hrest & Hrun)
      end.
      simpl in Hdue, Hrest, Hrun. fold t0 in Hdue, Hrest, Hrun.
      exists (e :: popped), rest. split; [rewrite Hsplit; reflexivity|].
      split; [constructor; assumption|]. split; [exact Hrest|].
      rewrite Hrun. unfold traced, set_rhythm; simpl.
      rewrite <- !app_assoc. reflexivity.
Qed.

(** One tick of the rhythm scheduler. *)
Lemma rhythm_tick (cb : nat) (queue : list Beep) (s : State) :
  onClick (this s) = Some cb ->
  rhythm (this s) = Some queue ->
  let t0 := Js.ofNullable (startTimeStamp (this s)) in
  let endTime := currentTime (env s) + lookAheadTime in
  exists (popped rest : list Beep) (s' : State),
    queue = popped ++ rest
    /\ Forall (fun e => t0 + time e <= endTime) popped
    /\ not_due t0 endTime rest
    /\ _schedulerForRhythmTrack s = Returns s'
    /\ rhythm (this s') = Some rest
    /\ onClick (this s') = Some cb
    /\ startTimeStamp (this s') = startTimeStamp (this s)
    /\ trace (env s') = trace (env s) ++ flat_map (beep_effects cb t0) popped
    /\ (rest = [] ->
        timerID (this s') = timerID (this s)
        /\ pending (env s') = pending (env s))
    /\ (rest <> [] ->
        timerID (this s') = Some (nextHandle (env s))
        /\ pending (env s')
           = mkTimer (nextHandle (env s)) scheduleTimeout
                     SchedulerForRhythmTrack :: pending (env s)).
Proof.
  intros Hcb Hq t0 endTime.
  destruct (rhythm_loop_pops cb endTime queue s Hcb Hq)
    as (popped & rest & Hsplit & Hdue & Hrest & Hrun).
  fold t0 in Hdue, Hrest, Hrun.
  unfold _schedulerForRhythmTrack. rewrite Hq. fold endTime. rewrite Hrun.
  cbn [bind]. unfold rhythm_left. cbn [this rhythm set_rhythm].
  exists popped, rest. destruct rest as [|e rest]; eexists;
    (split; [exact Hsplit|]); (split; [exact Hdue|]);
    (split; [exact Hrest|]); (split; [reflexivity|]); simpl;
    (split; [reflexivity|]); (split; [exact Hcb|]);
    (split; [reflexivity|]); (split; [reflexivity|]); split; intros Hr.
  - split; reflexivity.
  - contradiction Hr. reflexivity.
  - discriminate Hr.
  - split; reflexivity.
Qed.

(** C6.  One tick of the rhythm scheduler, entered with the queue [queue]
    and an observer, returns.  It has popped a front part [popped] of the
    queue, every beep of which starts no later than the end of the window
    (the end itself included), and it has stopped at the first beep that
    starts later; each popped beep went to the observer and to the
    oscillator at [startTimeStamp + time], at 330 Hz if accented and at
    220 Hz otherwise, in queue order.  The rest stays in [#rhythm]: when
    it is empty no timer is armed, otherwise one is, with the polling
    delay.  Over any number of ticks the beeps emitted are a front part of
    the queue, each one once; a tick on an empty queue changes nothing. *)
Theorem rhythm_tick_pops_due_prefix (cb : nat) (queue : list Beep) (s : State) :
  onClick (this s) = Some cb ->
  rhythm (this s) = Some queue ->
  let t0 := Js.ofNullable (startTimeStamp (this s)) in
  let endTime := currentTime (env s) + lookAheadTime in
  (exists (popped rest : list Beep) (s' : State),
      queue = popped ++ rest
      /\ Forall (fun e => t0 + time e <= endTime) popped
      /\ not_due t0 endTime rest
      /\ _schedulerForRhythmTrack s = Returns s'
      /\ rhythm (this s') = Some rest
      /\ trace (env s') = trace (env s) ++ flat_map (beep_effects cb t0) popped
      /\ (rest = [] ->
          timerID (this s') = timerID (this s)
          /\ pending (env s') = pending (env s))
      /\ (rest <> [] ->
          timerID (this s') = Some (nextHandle (env s))
          /\ pending (env s')
             = mkTimer (nextHandle (env s)) scheduleTimeout
                       SchedulerForRhythmTrack :: pending (env s)))
  /\ (forall ts : list Q,
        exists (popped rest : list Beep) (s' : State),
          queue = popped ++ rest
          /\ rhythm_ticks ts s = Returns s'
          /\ rhythm (this s') = Some rest
          /\ trace (env s')
             = trace (env s) ++ flat_map (beep_effects cb t0) popped)
  /\ (queue = [] -> _schedulerForRhythmTrack s = Returns s).
Proof.
  intros Hcb Hq t0 endTime. split; [|split].
  - destruct (rhythm_tick cb queue s Hcb Hq)
      as (popped & rest & s' & H1 & H2 & H3 & H4 & H5 & _ & _ & H6 & H7 & H8).
    exists popped, rest, s'. repeat (split; [assumption|]). assumption.
  - intros ts. subst t0. clear endTime. revert queue s Hcb Hq.
    induction ts as [|t ts IH]; intros queue s Hcb Hq.
    + exists [], queue, s. simpl. rewrite app_nil_r. auto.
    + destruct (rhythm_tick cb queue (setClock t s) Hcb Hq)
        as (p1 & r1 & s1 & Hsplit1 & _ & _ & Hrun1 & Hq1 & Hcb1 & Hst1
            & Htr1 & _).
      destruct (IH r1 s1 Hcb1 Hq1) as (p2 & r2 & s2 & Hsplit2 & Hrun2 & Hq2
                                       & Htr2).
      exists (p1 ++ p2), r2, s2.
      split; [rewrite Hsplit1, Hsplit2, app_assoc; reflexivity|].
      split; [cbn [rhythm_ticks]; rewrite Hrun1; exact Hrun2|].
      split; [exact Hq2|].
      rewrite Htr2, Htr1, Hst1, flat_map_app, app_assoc. reflexivity.
  - intros ->. unfold _schedulerForRhythmTrack. rewrite Hq. simpl.
    unfold rhythm_left. rewrite Hq. reflexivity.
Qed.

Lemma rhythm_tick_pops_due_prefix_witness :
  exists (popped rest : list Beep) (s' : State),
    [mkBeep 0 true; mkBeep (1 # 2) false; mkBeep 2 false] = popped ++ rest
    /\ Forall (fun e => 1 + time e <= 1 + lookAheadTime) popped
    /\ not_due 1 (1 + lookAheadTime) rest
    /\ _schedulerForRhythmTrack with_rhythm = Returns s'
    /\ rhythm (this s') = Some rest
    /\ trace (env s')
       = trace (env with_rhythm) ++ flat_map (beep_effects 0 1) popped
    /\ (rest = [] ->
        timerID (this s') = timerID (this with_rhythm)
        /\ pending (env s') = pending (env with_rhythm))
    /\ (rest <> [] ->
        timerID (this s') = Some (nextHandle (env with_rhythm))
        /\ pending (env s')
           = mkTimer (nextHandle (env with_rhythm)) scheduleTimeout
                     SchedulerForRhythmTrack :: pending (env with_rhythm)).
Proof.
  apply (rhythm_tick_pops_due_prefix 0
           [mkBeep 0 true; mkBeep (1 # 2) false; mkBeep 2 false] with_rhythm);
    reflexivity.
Defined.

(** * Further properties of the metronome *)

(** ** What a tick leaves alone *)

(** The loop of [_scheduler] touches [#beatCount] and the trace only,
    whether it returns or throws; the count never goes down, and it goes
    up by one for each tone commanded. *)
Lemma scheduler_loop_frame (a spb : Q) :
  forall (fuel : nat) (next : Q) (s s' : State),
    scheduler_loop fuel a spb next s = Returns s'
    \/ scheduler_loop fuel a spb next s = Throws s' ->
    exists l : list effect,
      this s' = set_beatCount (beatCount (this s')) (this s)
      /\ env s' = traced l (env s)
      /\ (Js.ofNullableZ (beatCount (this s'))
          = Js.ofNullableZ (beatCount (this s)) + Z.of_nat (length (tones l)))%Z
      /\ (l <> [] -> onClick (this s) <> None).
Proof.
  assert (Hstay : forall s : State,
             this s = set_beatCount (beatCount (this s)) (this s)
             /\ env s = traced [] (env s)).
  { intros [m e]. destruct m; destruct e. unfold traced; simpl.
    rewrite app_nil_r. split; reflexivity. }
  induction fuel as [|fuel IH]; intros next s s' Hrun.
  - simpl in Hrun. destruct Hrun; discriminate.
  - rewrite scheduler_loop_S in Hrun.
    destruct (Js.ltb next (currentTime (env s) + lookAheadTime)).
    + unfold _playSound in Hrun.
      destruct (onClick (this s)) as [cb|] eqn:Ecb; cbn [bind] in Hrun.
      * apply IH in Hrun. destruct Hrun as (l & Hthis & Henv & Hcount & _).
        exists (Click cb (next + spb)
                :: Tone (next + spb)
                     (if isAccent a (beatCount (this s)) then 330 else 220)
                     (next + spb + beepDuration) :: l).
        split; [|split; [|split]].
        -- rewrite Hthis. destruct s as [m e]; destruct m; reflexivity.
        -- rewrite Henv. destruct s as [m e]; destruct e.
           unfold traced, emit, on_env, incr_beatCount, on_this; simpl.
           rewrite <- !app_assoc. reflexivity.
        -- rewrite Hcount. cbn [tones length]. simpl Js.ofNullableZ. lia.
        -- intros _. discriminate.
      * destruct Hrun as [Hrun|Hrun]; [discriminate|].
        injection Hrun as <-. exists [].
        destruct (Hstay s) as [H1 H2].
        split; [exact H1|]. split; [exact H2|].
        split; [simpl; lia|]. intros H. contradiction H. reflexivity.
    + destruct Hrun as [Hrun|Hrun]; [|discriminate].
      injection Hrun as <-. exists [].
      destruct (Hstay s) as [H1 H2].
      split; [exact H1|]. split; [exact H2|].
      split; [simpl; lia|]. intros H. contradiction H. reflexivity.
Qed.

(** The same for the whole tick function, which also arms the next run. *)
Lemma _scheduler_frame (fuel : nat) (s s' : State) :
  _scheduler fuel s = Returns s' ->
  exists l : list effect,
    this s'
    = set_timerID (Some (nextHandle (env s)))
        (set_beatCount (beatCount (this s')) (this s))
    /\ env s'
       = mkBrowser (currentTime (env s)) (suspended (env s))
           (mkTimer (nextHandle (env s)) scheduleTimeout Scheduler
            :: pending (env s))
           (S (nextHandle (env s))) (trace (env s) ++ l)
    /\ (Js.ofNullableZ (beatCount (this s'))
        = Js.ofNullableZ (beatCount (this s)) + Z.of_nat (length (tones l)))%Z.
Proof.
  unfold _scheduler.
  destruct (Qeq_bool (Js.ofNullable (bpm (this s))) 0); [discriminate|].
  match goal with
  | |- context [scheduler_loop fuel ?a ?spb ?next s] =>
      destruct (scheduler_loop fuel a spb next s) as [s1|s1| |] eqn:E;
        cbn [bind]; try discriminate;
        pose proof (scheduler_loop_frame a spb fuel next s s1 (or_introl E))
          as (l & Hthis & Henv & Hcount & _)
  end.
  intros H. injection H as <-. exists l.
  unfold plan, setTimeout; cbn [this env on_this].
  rewrite Henv. cbn [traced nextHandle currentTime suspended pending trace].
  split; [|split; [reflexivity|exact Hcount]].
  rewrite Hthis. destruct s as [m e]; destruct m; reflexivity.
Qed.

(** A tick that throws has changed nothing at all: the TypeError of the
    missing observer comes before the first effect. *)
Lemma _scheduler_throws (fuel : nat) (s s' : State) :
  _scheduler fuel s = Throws s' -> s' = s /\ onClick (this s) = None.
Proof.
  unfold _scheduler.
  destruct (Qeq_bool (Js.ofNullable (bpm (this s))) 0); [discriminate|].
  match goal with
  | |- context [scheduler_loop fuel ?a ?spb ?next s] =>
      generalize next; generalize spb; generalize a
  end.
  intros a spb next.
  destruct (scheduler_loop fuel a spb next s) as [s1|s1| |] eqn:E;
    cbn [bind]; try discriminate.
  intros H. injection H as <-.
  revert next s E.
  induction fuel as [|fuel IH]; intros next s E; [discriminate|].
  rewrite scheduler_loop_S in E.
  destruct (Js.ltb next (currentTime (env s) + lookAheadTime));
    [|discriminate].
  unfold _playSound in E.
  destruct (onClick (this s)) as [cb|] eqn:Ecb; cbn [bind] in E.
  - apply IH in E. destruct E as [_ E]. simpl in E. congruence.
  - injection E as <-. split; reflexivity.
Qed.

(** X1.  A run of the tick function that returns has changed nothing of
    the object but [#beatCount] and [#timerID]: tempo, accent, start time
    stamp, playing flag, observer and rhythm queue are as before.  It has
    armed exactly one more timer, with the polling delay and under a new
    handle, whatever the number of beats; the clock is as before; and
    [#beatCount] has gone up by exactly the number of tones commanded. *)
Theorem tick_changes_count_timer_and_trace_only
    (fuel : nat) (s s' : State) :
  _scheduler fuel s = Returns s' ->
  exists l : list effect,
    this s'
    = set_timerID (Some (nextHandle (env s)))
        (set_beatCount (beatCount (this s')) (this s))
    /\ env s'
       = mkBrowser (currentTime (env s)) (suspended (env s))
           (mkTimer (nextHandle (env s)) scheduleTimeout Scheduler
            :: pending (env s))
           (S (nextHandle (env s))) (trace (env s) ++ l)
    /\ (Js.ofNullableZ (beatCount (this s'))
        = Js.ofNullableZ (beatCount (this s)) + Z.of_nat (length (tones l)))%Z.
Proof.
  intros Hrun.
  destruct (_scheduler_frame fuel s s' Hrun) as (l & Hthis & Henv & Hcount).
  exists l. split; [exact Hthis|]. split; [exact Henv|exact Hcount].
Qed.

Lemma tick_changes_count_timer_and_trace_only_witness :
  exists l : list effect,
    this ticked
    = set_timerID (Some (nextHandle (env tempo_set)))
        (set_beatCount (beatCount (this ticked)) (this tempo_set))
    /\ env ticked
       = mkBrowser (currentTime (env tempo_set)) (suspended (env tempo_set))
           (mkTimer (nextHandle (env tempo_set)) scheduleTimeout Scheduler
            :: pending (env tempo_set))
           (S (nextHandle (env tempo_set))) (trace (env tempo_set) ++ l)
    /\ (Js.ofNullableZ (beatCount (this ticked))
        = Js.ofNullableZ (beatCount (this tempo_set))
          + Z.of_nat (length (tones l)))%Z.
Proof.
  apply (tick_changes_count_timer_and_trace_only 3 tempo_set ticked).
  vm_compute. reflexivity.
Defined.

(** ** [start] *)

Lemma start_accepted (fuel : nat) (b a : Q) (s : State) :
  ~ b == 0 -> ~ a == 0 ->
  start fuel (Js.Num (Js.Fin b)) (Js.Num (Js.Fin a)) s
  = _scheduler fuel (configured b a s).
Proof.
  intros Hb Ha. unfold start. simpl.
  rewrite (Qeq_bool_neq b Hb), (Qeq_bool_neq a Ha). reflexivity.
Qed.

Lemma configured_fields (b a : Q) (s : State) :
  this (configured b a s)
  = mkMetronome true (timerID (this s)) (Some b) a
      (Some (currentTime (env s))) (Some (-1)%Z) (rhythm (this s))
      (onClick (this s))
  /\ currentTime (env (configured b a s)) = currentTime (env s)
  /\ suspended (env (configured b a s)) = suspended (env s)
  /\ pending (env (configured b a s)) = pending (env s)
  /\ nextHandle (env (configured b a s)) = nextHandle (env s)
  /\ tones (trace (env (configured b a s))) = tones (trace (env s)).
Proof.
  destruct s as [m e]. destruct e as [now su pe nh tr].
  unfold configured. destruct su; simpl;
    rewrite !tones_app; simpl; rewrite !app_nil_r; repeat split.
Qed.

Lemma falsy_guard (v : Js.value) :
  falsy v <-> negb (Js.truthy v) || Js.isNaN (Js.toNumber v) = true.
Proof.
  split.
  - intros [->|[->|[->|[q [-> Hq]]]]]; try reflexivity.
    simpl. apply Qeq_bool_iff in Hq. rewrite Hq. reflexivity.
  - destruct v as [| |[|q]]; intros H.
    + left. reflexivity.
    + right. left. reflexivity.
    + right. right. left. reflexivity.
    + right. right. right. exists q. split; [reflexivity|].
      simpl in H. rewrite orb_false_r, negb_involutive in H.
      apply Qeq_bool_iff. exact H.
Qed.

(** X2.  [start] turns away a tempo that is undefined, null, NaN or zero,
    and, when the tempo is a non-zero number, an explicit accent that is
    null, NaN or zero: it writes one error to the console and returns;
    the object, the timers, the clock and the sound are as before.  (An
    omitted accent is not turned away: it stands for 4.) *)
Theorem start_rejects_falsy_arguments
    (fuel : nat) (v w : Js.value) (s : State) :
  falsy v \/ (~ falsy v /\ w <> Js.Undefined /\ falsy w) ->
  exists (s' : State) (m : message),
    start fuel v w s = Returns s'
    /\ (m = InvalidBpm v \/ m = InvalidAccent w)
    /\ this s' = this s
    /\ env s' = traced [ConsoleError m] (env s).
Proof.
  intros [Hv|(Hv & Hw & Hfw)].
  - exists (emit (ConsoleError (InvalidBpm v)) s), (InvalidBpm v).
    split; [|split; [left; reflexivity|split; reflexivity]].
    unfold start. rewrite (proj1 (falsy_guard v) Hv). reflexivity.
  - exists (emit (ConsoleError (InvalidAccent w)) s), (InvalidAccent w).
    split; [|split; [right; reflexivity|split; reflexivity]].
    unfold start.
    destruct (negb (Js.truthy v) || Js.isNaN (Js.toNumber v)) eqn:E.
    + contradiction Hv. apply falsy_guard. exact E.
    + destruct w; [contradiction Hw; reflexivity| |];
        rewrite (proj1 (falsy_guard _) Hfw); reflexivity.
Qed.

Lemma start_rejects_falsy_arguments_witness :
  exists (s' : State) (m : message),
    start 1 (Js.Num (Js.Fin 120)) (Js.Num (Js.Fin 0)) observed = Returns s'
    /\ (m = InvalidBpm (Js.Num (Js.Fin 120))
        \/ m = InvalidAccent (Js.Num (Js.Fin 0)))
    /\ this s' = this observed
    /\ env s' = traced [ConsoleError m] (env observed).
Proof.
  apply (start_rejects_falsy_arguments 1 (Js.Num (Js.Fin 120))
           (Js.Num (Js.Fin 0)) observed).
  right. split; [|split].
  - intros [H|[H|[H|[q [H Hq]]]]]; try discriminate H.
    injection H as <-. discriminate Hq.
  - discriminate.
  - right. right. right. exists 0. split; reflexivity.
Defined.

(** X3.  [start] with a positive tempo and a non-zero accent, on a
    metronome with an observer, returns and leaves the metronome playing
    with that tempo and accent stored, the start time stamp at the current
    clock time, the observer and the rhythm queue as before, and exactly
    one more timer armed, with the polling delay, remembered in
    [#timerID].  An omitted accent gives the same run as the accent 4. *)
Theorem start_configures_and_arms_one_timer
    (s : State) (b a : Q) (cb : nat) :
  0 < b -> ~ a == 0 ->
  onClick (this s) = Some cb ->
  (exists (fuel : nat) (s' : State),
      start fuel (Js.Num (Js.Fin b)) (Js.Num (Js.Fin a)) s = Returns s')
  /\ (forall (fuel : nat) (s' : State),
        start fuel (Js.Num (Js.Fin b)) (Js.Num (Js.Fin a)) s = Returns s' ->
        isPlaying (this s') = true
        /\ bpm (this s') = Some b
        /\ accent (this s') = a
        /\ startTimeStamp (this s') = Some (currentTime (env s))
        /\ onClick (this s') = Some cb
        /\ rhythm (this s') = rhythm (this s)
        /\ timerID (this s') = Some (nextHandle (env s))
        /\ pending (env s')
           = mkTimer (nextHandle (env s)) scheduleTimeout Scheduler
             :: pending (env s)
        /\ currentTime (env s') = currentTime (env s))
  /\ (forall fuel : nat,
        start fuel (Js.Num (Js.Fin b)) Js.Undefined s
        = start fuel (Js.Num (Js.Fin b)) (Js.Num (Js.Fin 4)) s).
Proof.
  intros Hb Ha Hcb. split; [|split].
  - exact (proj1 (start_playing s b a cb Hb Ha Hcb)).
  - intros fuel s' Hrun.
    rewrite (start_accepted fuel b a s (pos_neq0 b Hb) Ha) in Hrun.
    destruct (_scheduler_frame fuel _ s' Hrun) as (l & Hthis & Henv & _).
    destruct (configured_fields b a s) as (Cthis & Cnow & _ & Cpe & Cnh & _).
    rewrite Hthis, Henv, Cthis, Cnow, Cpe, Cnh. simpl.
    repeat split. exact Hcb.
  - intros fuel. reflexivity.
Qed.

Lemma start_configures_and_arms_one_timer_witness :
  exists (fuel : nat) (s' : State),
    start fuel (Js.Num (Js.Fin 120)) (Js.Num (Js.Fin 3)) observed = Returns s'.
Proof.
  apply (start_configures_and_arms_one_timer observed 120 3 0);
    [reflexivity|discriminate|reflexivity].
Defined.

(** X4.  [start] with a positive tempo on a metronome without observer
    throws: the first beat is always due, and calling the missing observer
    is a TypeError.  By then the metronome is marked as playing and its
    configuration is stored, but no tone has been commanded and no timer is
    armed, so no tick will ever run. *)
Theorem start_without_observer_throws
    (fuel : nat) (s : State) (b a : Q) :
  0 < b -> ~ a == 0 ->
  onClick (this s) = None ->
  exists s' : State,
    start (S fuel) (Js.Num (Js.Fin b)) (Js.Num (Js.Fin a)) s = Throws s'
    /\ isPlaying (this s') = true
    /\ bpm (this s') = Some b
    /\ beatCount (this s') = Some (-1)%Z
    /\ timerID (this s') = timerID (this s)
    /\ pending (env s') = pending (env s)
    /\ tones (trace (env s')) = tones (trace (env s)).
Proof.
  intros Hb Ha Hcb. pose proof (spb_pos b Hb) as Hspb.
  destruct (configured_fields b a s) as (Cthis & Cnow & _ & Cpe & _ & Ctr).
  exists (configured b a s).
  rewrite (start_accepted _ b a s (pos_neq0 b Hb) Ha).
  split.
  - unfold _scheduler. rewrite Cthis. cbn [bpm startTimeStamp beatCount accent].
    cbn [Js.ofNullable Js.ofNullableZ]. rewrite (Qeq_bool_pos b Hb).
    rewrite scheduler_loop_S, Cnow.
    assert (E : Js.ltb (currentTime (env s) + inject_Z (-1) * (60 / b))
                       (currentTime (env s) + lookAheadTime) = true).
    { apply ltb_lt. unfold lookAheadTime.
      assert (E1 : inject_Z (-1) == - (1)) by reflexivity.
      rewrite E1. lra. }
    rewrite E. unfold _playSound. rewrite Cthis. cbn [onClick].
    rewrite Hcb. reflexivity.
  - rewrite Cthis, Cpe, Ctr. simpl. repeat split.
Qed.

Lemma start_without_observer_throws_witness :
  exists s' : State,
    start 1 (Js.Num (Js.Fin 120)) (Js.Num (Js.Fin 4)) created = Throws s'
    /\ isPlaying (this s') = true
    /\ bpm (this s') = Some 120
    /\ beatCount (this s') = Some (-1)%Z
    /\ timerID (this s') = timerID (this created)
    /\ pending (env s') = pending (env created)
    /\ tones (trace (env s')) = tones (trace (env created)).
Proof.
  apply (start_without_observer_throws 0 created 120 4);
    [reflexivity|discriminate|reflexivity].
Defined.

(** ** The beats of a session, continued *)

Lemma nondecreasing_last (ts : list Q) :
  forall t : Q, nondecreasing t ts -> t <= last ts t.
Proof.
  induction ts as [|u ts IH]; intros t Hts; [apply Qle_refl|].
  destruct Hts as [H1 H2]. rewrite last_cons.
  eapply Qle_trans; [exact H1|]. apply IH. exact H2.
Qed.

(** X5.  What the getters show after a session: [bpm] is the tempo given
    to [start], and [beatCount] is the index of the last beat put out,
    that is the number of tones commanded since [start], less one. *)
Theorem getters_after_session
    (s : State) (b a : Q) (cb : nat) (ts : list Q) :
  0 < b -> ~ a == 0 ->
  onClick (this s) = Some cb ->
  nondecreasing (currentTime (env s)) ts ->
  forall (fuel : nat) (s' : State),
    session fuel (Js.Num (Js.Fin b)) (Js.Num (Js.Fin a)) ts s = Returns s' ->
    exists l : list (Q * Q),
      tones (trace (env s')) = tones (trace (env s)) ++ l
      /\ bpm (this s') = Some b
      /\ beatCount (this s') = Some (Z.of_nat (length l) - 1)%Z
      /\ (1 <= length l)%nat.
Proof.
  intros Hb Ha Hcb Hts fuel s' Hrun. pose proof (spb_pos b Hb) as Hspb.
  destruct (session_returns s s' b a cb fuel ts Hb Ha Hcb Hts Hrun)
    as [N Hinv].
  destruct (playing_beats s s' b a _ N Hinv) as (l & Hl & Hlen & _ & HN).
  destruct Hinv as (_ & Hbpm & _ & _ & Hcount & _ & _ & HT & _).
  exists l. split; [exact Hl|]. split; [exact Hbpm|].
  rewrite Hlen. split; [exact Hcount|].
  apply HN. unfold beatTime. rewrite ofNat_0.
  pose proof (nondecreasing_last ts _ Hts).
  unfold lookAheadTime. lra.
Qed.

Lemma getters_after_session_witness :
  exists l : list (Q * Q),
    tones (trace (env (result (session 9 (Js.Num (Js.Fin 120))
                                 (Js.Num (Js.Fin 4)) [1 # 10] observed)
                              observed)))
    = tones (trace (env observed)) ++ l
    /\ bpm (this (result (session 9 (Js.Num (Js.Fin 120))
                            (Js.Num (Js.Fin 4)) [1 # 10] observed)
                         observed)) = Some 120
    /\ beatCount (this (result (session 9 (Js.Num (Js.Fin 120))
                                  (Js.Num (Js.Fin 4)) [1 # 10] observed)
                               observed))
       = Some (Z.of_nat (length l) - 1)%Z
    /\ (1 <= length l)%nat.
Proof.
  apply (getters_after_session observed 120 4 0 [1 # 10]
           eq_refl ltac:(discriminate) eq_refl
           ltac:(simpl; split; [discriminate|exact I]) 9).
  vm_compute. reflexivity.
Defined.

Lemma isAccent_first (a : Q) : isAccent a (Some (Z.of_nat 0 - 1)%Z) = true.
Proof. unfold isAccent. apply orb_true_r. Qed.



(** ** [toggle], continued *)

Lemma stop_fields (s : State) :
  this (stop s) = set_isPlaying false (this s)
  /\ currentTime (env (stop s)) = currentTime (env s)
  /\ nextHandle (env (stop s)) = nextHandle (env s)
  /\ suspended (env (stop s)) = suspended (env s)
  /\ trace (env (stop s)) = trace (env s) ++ [ConsoleLog Stopped]
  /\ tones (trace (env (stop s))) = tones (trace (env s)).
Proof.
  destruct s as [m e]. destruct m as [pl id b a t0 c r o].
  destruct e as [now su pe nh tr].
  unfold stop. destruct id; simpl; rewrite tones_app; simpl;
    rewrite app_nil_r; repeat split.
Qed.

(** X7.  [toggle()] on a playing metronome is [stop()], whatever the
    arguments.  A second [toggle()] without arguments starts it again with
    the tempo it remembers, but with the accent 4, not the accent it was
    started with before: the metronome plays again from beat 0, at the
    current clock time. *)
Theorem toggle_twice_restarts_with_accent_4
    (s : State) (b : Q) (cb : nat) :
  isPlaying (this s) = true ->
  bpm (this s) = Some b ->
  0 < b ->
  onClick (this s) = Some cb ->
  (forall (fuel : nat) (v w : Js.value), toggle fuel v w s = Returns (stop s))
  /\ (exists (fuel : nat) (s2 : State),
        toggle fuel Js.Undefined Js.Undefined (stop s) = Returns s2)
  /\ (forall (fuel : nat) (s2 : State),
        toggle fuel Js.Undefined Js.Undefined (stop s) = Returns s2 ->
        isPlaying (this s2) = true
        /\ bpm (this s2) = Some b
        /\ accent (this s2) = 4
        /\ startTimeStamp (this s2) = Some (currentTime (env s))
        /\ exists (x : Q * Q) (l : list (Q * Q)),
             tones (trace (env s2)) = tones (trace (env s)) ++ x :: l
             /\ fst x == currentTime (env s)
             /\ snd x = 330).
Proof.
  intros Hplay Hbpm Hb Hcb.
  assert (H4 : ~ 4 == 0) by discriminate.
  destruct (stop_fields s) as (Hthis & Hnow & _ & _ & _ & Htones).
  assert (Hcb' : onClick (this (stop s)) = Some cb)
    by (rewrite Hthis; exact Hcb).
  assert (Htoggle : forall fuel,
             toggle fuel Js.Undefined Js.Undefined (stop s)
             = start fuel (Js.Num (Js.Fin b)) (Js.Num (Js.Fin 4)) (stop s)).
  { intros fuel. unfold toggle. rewrite Hthis. cbn [isPlaying set_isPlaying bpm].
    rewrite Hbpm. reflexivity. }
  split; [|split].
  - intros fuel v w. unfold toggle. rewrite Hplay. reflexivity.
  - destruct (proj1 (start_playing (stop s) b 4 cb Hb H4 Hcb'))
      as (fuel & s2 & Hrun).
    exists fuel, s2. rewrite Htoggle. exact Hrun.
  - intros fuel s2 Hrun. rewrite Htoggle in Hrun.
    destruct (proj2 (start_playing (stop s) b 4 cb Hb H4 Hcb') fuel s2 Hrun)
      as [N Hinv].
    destruct (playing_beats _ s2 b 4 _ N Hinv) as (l & Hl & Hlen & Hnth & HN).
    pose proof (spb_pos b Hb) as Hspb.
    assert (H0 : (0 < N)%nat).
    { apply HN. unfold beatTime, lookAheadTime. rewrite ofNat_0. lra. }
    destruct Hinv as (Hp & Hb2 & Ha2 & Hst & _).
    rewrite Hnow in *. rewrite Htones in Hl.
    split; [exact Hp|]. split; [exact Hb2|]. split; [exact Ha2|].
    split; [exact Hst|].
    destruct l as [|x l]; [simpl in Hlen; lia|].
    exists x, l. split; [exact Hl|].
    destruct (Hnth 0%nat x eq_refl) as [Hx Hf].
    split; [rewrite Hx; unfold beatTime; rewrite ofNat_0; ring|].
    rewrite Hf, isAccent_first. reflexivity.
Qed.

Lemma toggle_twice_restarts_with_accent_4_witness :
  exists (fuel : nat) (s2 : State),
    toggle fuel Js.Undefined Js.Undefined
           (stop (on_this (set_isPlaying true) tempo_set))
    = Returns s2.
Proof.
  apply (toggle_twice_restarts_with_accent_4
           (on_this (set_isPlaying true) tempo_set) 120 0);
    reflexivity.
Defined.

(** ** One session, one timer *)

(** [start] either turns its arguments away or enters the first tick
    configured. *)
Lemma start_cases (fuel : nat) (v w : Js.value) (s : State) :
  (exists m : message, start fuel v w s = Returns (emit (ConsoleError m) s))
  \/ (exists b a : Q,
        ~ b == 0 /\ ~ a == 0
        /\ v = Js.Num (Js.Fin b)
        /\ (w = Js.Num (Js.Fin a) \/ (w = Js.Undefined /\ a = 4))
        /\ start fuel v w s = _scheduler fuel (configured b a s)).
Proof.
  assert (Hneq : forall q, Qeq_bool q 0 = false -> ~ q == 0).
  { intros q E H. apply Qeq_bool_iff in H. congruence. }
  destruct v as [| |[|b]]; try (left; eexists; reflexivity).
  destruct (Qeq_bool b 0) eqn:Eb.
  { left. eexists. unfold start. simpl. rewrite Eb. reflexivity. }
  destruct w as [| |[|a]].
  - right. exists b, 4. split; [exact (Hneq b Eb)|]. split; [discriminate|].
    split; [reflexivity|]. split; [right; split; reflexivity|].
    apply start_accepted; [exact (Hneq b Eb)|discriminate].
  - left. eexists. unfold start. simpl. rewrite Eb. reflexivity.
  - left. eexists. unfold start. simpl. rewrite Eb. reflexivity.
  - destruct (Qeq_bool a 0) eqn:Ea.
    + left. eexists. unfold start. simpl. rewrite Eb, Ea. reflexivity.
    + right. exists b, a. split; [exact (Hneq b Eb)|].
      split; [exact (Hneq a Ea)|]. split; [reflexivity|].
      split; [left; reflexivity|].
      apply start_accepted; [exact (Hneq b Eb)|exact (Hneq a Ea)].
Qed.

Lemma fire_nothing_armed (fuel h : nat) (s : State) :
  pending (env s) = [] -> fire fuel h s = Returns s.
Proof.
  intros H. unfold fire, armed. rewrite H. reflexivity.
Qed.

Lemma _scheduler_one_timer (fuel : nat) (s s' : State) :
  pending (env s) = [] ->
  _scheduler fuel s = Returns s' -> at_most_one_timer s'.
Proof.
  intros Hpe Hrun.
  destruct (_scheduler_frame fuel s s' Hrun) as (l & Hthis & Henv & _).
  right. exists (nextHandle (env s)).
  rewrite Hthis, Henv, Hpe. split; reflexivity.
Qed.

Lemma start_one_timer (fuel : nat) (v w : Js.value) (s s' : State) :
  pending (env s) = [] ->
  start fuel v w s = Returns s' -> at_most_one_timer s'.
Proof.
  intros Hpe Hrun.
  destruct (start_cases fuel v w s)
    as [[m Hm]|(b & a & _ & _ & _ & _ & Hs)].
  - rewrite Hm in Hrun. injection Hrun as <-. left. exact Hpe.
  - rewrite Hs in Hrun.
    apply (_scheduler_one_timer fuel (configured b a s) s'); [|exact Hrun].
    destruct (configured_fields b a s) as (_ & _ & _ & Cpe & _).
    rewrite Cpe. exact Hpe.
Qed.

Lemma tick_at_one_timer (fuel : nat) (t : Q) (s s' : State) :
  at_most_one_timer s ->
  tick_at fuel t s = Returns s' -> at_most_one_timer s'.
Proof.
  intros [Hpe|(h & Hid & Hpe)] Hrun; unfold tick_at in Hrun.
  - destruct (timerID (this s)) as [h|].
    + rewrite fire_nothing_armed in Hrun by exact Hpe.
      injection Hrun as <-. left. exact Hpe.
    + injection Hrun as <-. left. exact Hpe.
  - rewrite Hid in Hrun. unfold fire, armed in Hrun.
    cbn [setClock on_env env pending] in Hrun. rewrite Hpe in Hrun.
    cbn [find handle] in Hrun. rewrite Nat.eqb_refl in Hrun.
    cbn [action] in Hrun.
    eapply (_scheduler_one_timer fuel); [|exact Hrun].
    simpl. rewrite Hpe. simpl. rewrite Nat.eqb_refl. reflexivity.
Qed.

Lemma ticks_one_timer (fuel : nat) (ts : list Q) :
  forall s s' : State,
    at_most_one_timer s ->
    ticks fuel ts s = Returns s' -> at_most_one_timer s'.
Proof.
  induction ts as [|t ts IH]; intros s s' Hs Hrun.
  - injection Hrun as <-. exact Hs.
  - cbn [ticks] in Hrun.
    destruct (tick_at fuel t s) as [s1|s1| |] eqn:E; try discriminate.
    cbn [bind] in Hrun.
    apply (IH s1 s'); [|exact Hrun].
    exact (tick_at_one_timer fuel t s s1 Hs E).
Qed.

Lemma stop_one_timer (s : State) :
  at_most_one_timer s -> pending (env (stop s)) = [].
Proof.
  destruct s as [m e]. destruct m as [pl id b a t0 c r o].
  destruct e as [now su pe nh tr].
  intros [Hpe|(h & Hid & Hpe)]; simpl in *; subst.
  - unfold stop. destruct id; reflexivity.
  - unfold stop. simpl. rewrite Nat.eqb_refl. reflexivity.
Qed.

(** X8.  In a session that begins with no timer armed, [start] called
    once, at most one timer is armed after [start] and after every tick,
    whatever the arguments and the clock times.  [stop()] then leaves no
    timer armed, and after it no timer event does anything: a tick that
    was due does not run, no beat is put out, nothing changes but the
    clock. *)
Theorem stop_ends_a_session_started_once
    (fuel : nat) (v w : Js.value) (ts : list Q) (s s' : State) :
  pending (env s) = [] ->
  session fuel v w ts s = Returns s' ->
  at_most_one_timer s'
  /\ pending (env (stop s')) = []
  /\ (forall (fuel' h : nat) (t : Q),
        fire fuel' h (setClock t (stop s')) = Returns (setClock t (stop s')))
  /\ (forall (fuel' : nat) (t : Q),
        tick_at fuel' t (stop s') = Returns (setClock t (stop s'))).
Proof.
  intros Hpe Hrun. unfold session in Hrun.
  destruct (start fuel v w s) as [s1|s1| |] eqn:E; try discriminate.
  cbn [bind] in Hrun.
  pose proof (start_one_timer fuel v w s s1 Hpe E) as H1.
  pose proof (ticks_one_timer fuel ts s1 s' H1 Hrun) as H2.
  pose proof (stop_one_timer s' H2) as H3.
  split; [exact H2|]. split; [exact H3|]. split.
  - intros fuel' h t. apply fire_nothing_armed. exact H3.
  - intros fuel' t. unfold tick_at.
    destruct (timerID (this (stop s'))); [|reflexivity].
    apply fire_nothing_armed. exact H3.
Qed.

Lemma stop_ends_a_session_started_once_witness :
  at_most_one_timer
    (result (session 9 (Js.Num (Js.Fin 120)) (Js.Num (Js.Fin 4))
               [1 # 10; 2 # 10] observed) observed)
  /\ pending
       (env (stop (result (session 9 (Js.Num (Js.Fin 120))
                             (Js.Num (Js.Fin 4)) [1 # 10; 2 # 10] observed)
                          observed)))
     = [].
Proof.
  destruct (stop_ends_a_session_started_once 9 (Js.Num (Js.Fin 120))
              (Js.Num (Js.Fin 4)) [1 # 10; 2 # 10] observed
              (result (session 9 (Js.Num (Js.Fin 120)) (Js.Num (Js.Fin 4))
                         [1 # 10; 2 # 10] observed) observed)
              eq_refl ltac:(vm_compute; reflexivity)) as (H1 & H2 & _).
  split; [exact H1|exact H2].
Defined.

(** * Further properties of the rhythm scheduler *)

(** Any number of ticks pop a front part of the queue. *)
Lemma rhythm_ticks_pop (cb : nat) (ts : list Q) :
  forall (queue : list Beep) (s : State),
    onClick (this s) = Some cb ->
    rhythm (this s) = Some queue ->
    exists (popped rest : list Beep) (s' : State),
      queue = popped ++ rest
      /\ rhythm_ticks ts s = Returns s'
      /\ rhythm (this s') = Some rest
      /\ onClick (this s') = Some cb
      /\ startTimeStamp (this s') = startTimeStamp (this s)
      /\ trace (env s')
         = trace (env s)
           ++ flat_map (beep_effects cb
                          (Js.ofNullable (startTimeStamp (this s)))) popped.
Proof.
  induction ts as [|t ts IH]; intros queue s Hcb Hq.
  - exists [], queue, s. simpl. rewrite app_nil_r. auto 6.
  - destruct (rhythm_tick cb queue (setClock t s) Hcb Hq)
      as (p1 & r1 & s1 & Hsplit1 & _ & _ & Hrun1 & Hq1 & Hcb1 & Hst1
          & Htr1 & _).
    destruct (IH r1 s1 Hcb1 Hq1)
      as (p2 & r2 & s2 & Hsplit2 & Hrun2 & Hq2 & Hcb2 & Hst2 & Htr2).
    exists (p1 ++ p2), r2, s2.
    split; [rewrite Hsplit1, Hsplit2, app_assoc; reflexivity|].
    split; [cbn [rhythm_ticks]; rewrite Hrun1; exact Hrun2|].
    split; [exact Hq2|]. split; [exact Hcb2|].
    split; [rewrite Hst2; exact Hst1|].
    rewrite Htr2, Htr1, Hst1, flat_map_app, app_assoc. reflexivity.
Qed.

Lemma rhythm_ticks_app (ts1 ts2 : list Q) :
  forall s : State,
    rhythm_ticks (ts1 ++ ts2) s
    = (s1 <- rhythm_ticks ts1 s ;; rhythm_ticks ts2 s1).
Proof.
  induction ts1 as [|t ts1 IH]; intros s; simpl; [reflexivity|].
  destruct (_schedulerForRhythmTrack (setClock t s)); simpl;
    [apply IH|reflexivity|reflexivity|reflexivity].
Qed.

Lemma tones_beep_effects (cb : nat) (t0 : Q) (l : list Beep) :
  tones (flat_map (beep_effects cb t0) l) = map (beep_tone t0) l.
Proof.
  induction l as [|e l IH]; simpl; [reflexivity|]. rewrite IH. reflexivity.
Qed.

(** X9.  The queue is played out, each beep once and in queue order: after
    any ticks followed by one tick at a clock time [T] by whose window
    every beep of the queue is due, [#rhythm] is empty and the tones
    commanded since the first tick are exactly those of the queue, one
    for each beep, at [startTimeStamp + time], in the order of the queue,
    sorted or not. *)
Theorem rhythm_queue_is_played_out
    (cb : nat) (queue : list Beep) (ts : list Q) (T : Q) (s : State) :
  onClick (this s) = Some cb ->
  rhythm (this s) = Some queue ->
  let t0 := Js.ofNullable (startTimeStamp (this s)) in
  Forall (fun e => t0 + time e <= T + lookAheadTime) queue ->
  exists s' : State,
    rhythm_ticks (ts ++ [T]) s = Returns s'
    /\ rhythm (this s') = Some []
    /\ trace (env s') = trace (env s) ++ flat_map (beep_effects cb t0) queue
    /\ tones (trace (env s')) = tones (trace (env s)) ++ map (beep_tone t0) queue.
Proof.
  intros Hcb Hq t0 Hdue.
  destruct (rhythm_ticks_pop cb ts queue s Hcb Hq)
    as (p1 & r1 & s1 & Hsplit1 & Hrun1 & Hq1 & Hcb1 & Hst1 & Htr1).
  destruct (rhythm_tick cb r1 (setClock T s1) Hcb1 Hq1)
    as (p2 & r2 & s2 & Hsplit2 & _ & Hnot & Hrun2 & Hq2 & _ & _ & Htr2 & _).
  assert (Hr2 : r2 = []).
  { destruct r2 as [|e r2]; [reflexivity|]. exfalso.
    assert (Hin : In e queue).
    { rewrite Hsplit1, Hsplit2. apply in_or_app. right.
      apply in_or_app. right. left. reflexivity. }
    rewrite Forall_forall in Hdue. specialize (Hdue e Hin).
    simpl in Hnot. rewrite Hst1 in Hnot. fold t0 in Hnot. lra. }
  subst r2. rewrite app_nil_r in Hsplit2. subst r1.
  exists s2.
  assert (Etr : trace (env s2)
                = trace (env s) ++ flat_map (beep_effects cb t0) queue).
  { rewrite Htr2. cbn [setClock on_env env trace on_this this]. rewrite Htr1.
    rewrite Hst1. fold t0. rewrite Hsplit1, flat_map_app, app_assoc.
    reflexivity. }
  split; [|split; [exact Hq2|split; [exact Etr|]]].
  - rewrite rhythm_ticks_app, Hrun1. cbn [bind rhythm_ticks].
    rewrite Hrun2. reflexivity.
  - rewrite Etr, tones_app, tones_beep_effects. reflexivity.
Qed.

Lemma rhythm_queue_is_played_out_witness :
  exists s' : State,
    rhythm_ticks ([1; 11 # 10] ++ [3]) with_rhythm = Returns s'
    /\ rhythm (this s') = Some []
    /\ trace (env s')
       = trace (env with_rhythm)
         ++ flat_map (beep_effects 0 1)
              [mkBeep 0 true; mkBeep (1 # 2) false; mkBeep 2 false]
    /\ tones (trace (env s'))
       = tones (trace (env with_rhythm))
         ++ map (beep_tone 1)
              [mkBeep 0 true; mkBeep (1 # 2) false; mkBeep 2 false].
Proof.
  apply (rhythm_queue_is_played_out 0
           [mkBeep 0 true; mkBeep (1 # 2) false; mkBeep 2 false]
           [1; 11 # 10] 3 with_rhythm); [reflexivity|reflexivity|].
  repeat constructor; discriminate.
Defined.

(** X10.  While the first beep of the queue is not yet due, a tick plays
    nothing, whatever comes behind it: the queue stays as it is, beeps
    of an earlier time that stand behind the first one included, and the
    tick only arms the next run.  No observer is needed for that. *)
Theorem rhythm_tick_waits_for_first_beep
    (e : Beep) (rest : list Beep) (s : State) :
  rhythm (this s) = Some (e :: rest) ->
  currentTime (env s) + lookAheadTime
  < Js.ofNullable (startTimeStamp (this s)) + time e ->
  _schedulerForRhythmTrack s = Returns (plan SchedulerForRhythmTrack s)
  /\ rhythm (this (plan SchedulerForRhythmTrack s)) = Some (e :: rest)
  /\ trace (env (plan SchedulerForRhythmTrack s)) = trace (env s)
  /\ armed (nextHandle (env s)) (plan SchedulerForRhythmTrack s)
     = Some (mkTimer (nextHandle (env s)) scheduleTimeout
                     SchedulerForRhythmTrack).
Proof.
  intros Hq Hlate. apply ltb_lt in Hlate.
  unfold _schedulerForRhythmTrack. rewrite Hq. cbn [rhythm_loop].
  rewrite Hlate. cbn [bind]. unfold rhythm_left. rewrite Hq.
  split; [reflexivity|]. split; [exact Hq|]. split; [reflexivity|].
  unfold armed, plan; simpl. rewrite Nat.eqb_refl. reflexivity.
Qed.

Lemma rhythm_tick_waits_for_first_beep_witness :
  _schedulerForRhythmTrack with_rhythm_unsorted
  = Returns (plan SchedulerForRhythmTrack with_rhythm_unsorted)
  /\ rhythm (this (plan SchedulerForRhythmTrack with_rhythm_unsorted))
     = Some [mkBeep 2 false; mkBeep 0 true].
Proof.
  destruct (rhythm_tick_waits_for_first_beep (mkBeep 2 false)
              [mkBeep 0 true] with_rhythm_unsorted eq_refl eq_refl)
    as (H1 & H2 & _).
  split; [exact H1|exact H2].
Defined.

(** X11.  A tick of the rhythm scheduler on a metronome without observer,
    with the first beep due, throws, and that beep is lost: it has been
    shifted off the queue, but no tone has been commanded for it and no
    timer is armed for the rest.  With [#rhythm] still [null] the tick
    throws at once and leaves everything as it is. *)
Theorem rhythm_tick_without_observer_loses_a_beep
    (e : Beep) (rest : list Beep) (s : State) :
  onClick (this s) = None ->
  (rhythm (this s) = None -> _schedulerForRhythmTrack s = Throws s)
  /\ (rhythm (this s) = Some (e :: rest) ->
      Js.ofNullable (startTimeStamp (this s)) + time e
      <= currentTime (env s) + lookAheadTime ->
      _schedulerForRhythmTrack s
      = Throws (on_this (set_rhythm (Some rest)) s)).
Proof.
  intros Hcb. split.
  - intros Hq. unfold _schedulerForRhythmTrack. rewrite Hq. reflexivity.
  - intros Hq Hdue. apply ltb_ge in Hdue.
    unfold _schedulerForRhythmTrack. rewrite Hq. cbn [rhythm_loop].
    rewrite Hdue. unfold _playSound. cbn [on_this this onClick set_rhythm].
    rewrite Hcb. reflexivity.
Qed.

Lemma rhythm_tick_without_observer_loses_a_beep_witness :
  _schedulerForRhythmTrack with_rhythm_unobserved
  = Throws (on_this (set_rhythm (Some [mkBeep (1 # 2) false; mkBeep 2 false]))
              with_rhythm_unobserved).
Proof.
  apply (proj2 (rhythm_tick_without_observer_loses_a_beep (mkBeep 0 true)
                  [mkBeep (1 # 2) false; mkBeep 2 false]
                  with_rhythm_unobserved eq_refl));
    [reflexivity|discriminate].
Defined.

Lemma StronglySorted_app_l {A : Type} (R : A -> A -> Prop) (l1 l2 : list A) :
  StronglySorted R (l1 ++ l2) -> StronglySorted R l1.
Proof.
  induction l1 as [|x l1 IH]; intros H; [constructor|].
  simpl in H. inversion H as [|y l Hs Hall]; subst.
  constructor; [apply IH; exact Hs|].
  rewrite Forall_app in Hall. exact (proj1 Hall).
Qed.

Lemma beep_tones_sorted (t0 : Q) (l : list Beep) :
  in_time_order l ->
  StronglySorted (fun x y => fst x <= fst y) (map (beep_tone t0) l).
Proof.
  intros Hsorted.
  induction Hsorted as [|e l Hs IH Hall]; simpl; constructor.
  - exact IH.
  - rewrite Forall_map. eapply Forall_impl; [|exact Hall].
    intros e' He'. unfold beep_tone. simpl in *. lra.
Qed.

(** X12.  When the queue is in the order of its times, the tones of the
    rhythm scheduler are commanded in the order of their times, over any
    number of ticks at any clock times. *)
Theorem rhythm_tones_in_time_order
    (cb : nat) (queue : list Beep) (ts : list Q) (s : State) :
  onClick (this s) = Some cb ->
  rhythm (this s) = Some queue ->
  in_time_order queue ->
  exists (s' : State) (l : list (Q * Q)),
    rhythm_ticks ts s = Returns s'
    /\ tones (trace (env s')) = tones (trace (env s)) ++ l
    /\ StronglySorted (fun x y => fst x <= fst y) l.
Proof.
  intros Hcb Hq Hsorted.
  destruct (rhythm_ticks_pop cb ts queue s Hcb Hq)
    as (popped & rest & s' & Hsplit & Hrun & _ & _ & _ & Htr).
  exists s', (map (beep_tone (Js.ofNullable (startTimeStamp (this s)))) popped).
  split; [exact Hrun|]. split.
  - rewrite Htr, tones_app, tones_beep_effects. reflexivity.
  - rewrite Hsplit in Hsorted. apply StronglySorted_app_l in Hsorted.
    apply beep_tones_sorted. exact Hsorted.
Qed.

Lemma rhythm_tones_in_time_order_witness :
  exists (s' : State) (l : list (Q * Q)),
    rhythm_ticks [1; 3] with_rhythm = Returns s'
    /\ tones (trace (env s')) = tones (trace (env with_rhythm)) ++ l
    /\ StronglySorted (fun x y => fst x <= fst y) l.
Proof.
  apply (rhythm_tones_in_time_order 0
           [mkBeep 0 true; mkBeep (1 # 2) false; mkBeep 2 false]
           [1; 3] with_rhythm); [reflexivity|reflexivity|].
  repeat constructor; discriminate.
Defined.

(** * [peep] *)

Lemma retraced_own (s : State) : retraced (trace (env s)) s = s.
Proof. destruct s as [m e]. destruct e. reflexivity. Qed.

Lemma emit_retraced (e : effect) (tr : list effect) (s : State) :
  emit e (retraced tr s) = retraced (tr ++ [e]) (emit e s).
Proof. reflexivity. Qed.

Lemma incr_beatCount_retraced (tr : list effect) (s : State) :
  incr_beatCount (retraced tr s) = retraced tr (incr_beatCount s).
Proof. reflexivity. Qed.

(** The loop of [_scheduler] does not look at the trace: on a state that
    differs in the trace only it runs alike and adds the same effects. *)
Lemma scheduler_loop_retraced (a spb : Q) :
  forall (fuel : nat) (next : Q) (s s' : State),
    scheduler_loop fuel a spb next s = Returns s' ->
    exists l : list effect,
      trace (env s') = trace (env s) ++ l
      /\ forall tr : list effect,
           scheduler_loop fuel a spb next (retraced tr s)
           = Returns (retraced (tr ++ l) s').
Proof.
  induction fuel as [|fuel IH]; intros next s s' Hrun; [discriminate|].
  rewrite scheduler_loop_S in Hrun.
  destruct (Js.ltb next (currentTime (env s) + lookAheadTime)) eqn:E.
  - unfold _playSound in Hrun.
    destruct (onClick (this s)) as [cb|] eqn:Ecb; [|discriminate].
    cbn [bind] in Hrun. apply IH in Hrun. destruct Hrun as (l & Htr & Hall).
    eexists. split.
    + rewrite Htr. simpl. rewrite <- !app_assoc. reflexivity.
    + intros tr. rewrite scheduler_loop_S.
      change (currentTime (env (retraced tr s))) with (currentTime (env s)).
      rewrite E. unfold _playSound.
      change (onClick (this (retraced tr s))) with (onClick (this s)).
      change (beatCount (this (retraced tr s))) with (beatCount (this s)).
      rewrite Ecb. cbn [bind].
      rewrite !emit_retraced, incr_beatCount_retraced, Hall.
      rewrite <- !app_assoc. reflexivity.
  - injection Hrun as <-. exists []. split; [rewrite app_nil_r; reflexivity|].
    intros tr. rewrite scheduler_loop_S.
    change (currentTime (env (retraced tr s))) with (currentTime (env s)).
    rewrite E, app_nil_r. reflexivity.
Qed.

Lemma _scheduler_retraced (fuel : nat) (s s' : State) :
  _scheduler fuel s = Returns s' ->
  exists l : list effect,
    trace (env s') = trace (env s) ++ l
    /\ forall tr : list effect,
         _scheduler fuel (retraced tr s) = Returns (retraced (tr ++ l) s').
Proof.
  unfold _scheduler. intros Hrun.
  change (this (retraced ?tr s)) with (this s).
  destruct (Qeq_bool (Js.ofNullable (bpm (this s))) 0) eqn:Eb; [discriminate|].
  destruct (scheduler_loop fuel (accent (this s))
              (60 / Js.ofNullable (bpm (this s)))
              (Js.ofNullable (startTimeStamp (this s))
               + inject_Z (Js.ofNullableZ (beatCount (this s)))
                 * (60 / Js.ofNullable (bpm (this s)))) s)
    as [s1|s1| |] eqn:E; cbn [bind] in Hrun; try discriminate.
  injection Hrun as <-.
  destruct (scheduler_loop_retraced _ _ fuel _ s s1 E) as (l & Htr & Hall).
  exists l. split; [exact Htr|].
  intros tr. rewrite Hall. reflexivity.
Qed.

Lemma rhythm_loop_retraced (endTime : Q) :
  forall (queue : list Beep) (s s' : State),
    rhythm_loop endTime queue s = Returns s' ->
    exists l : list effect,
      trace (env s') = trace (env s) ++ l
      /\ forall tr : list effect,
           rhythm_loop endTime queue (retraced tr s)
           = Returns (retraced (tr ++ l) s').
Proof.
  induction queue as [|e queue IH]; intros s s' Hrun.
  - injection Hrun as <-. exists []. split; [rewrite app_nil_r; reflexivity|].
    intros tr. rewrite app_nil_r. reflexivity.
  - cbn [rhythm_loop] in Hrun.
    destruct (Js.ltb endTime
                (Js.ofNullable (startTimeStamp (this s)) + time e)) eqn:E.
    + injection Hrun as <-. exists [].
      split; [rewrite app_nil_r; reflexivity|].
      intros tr. cbn [rhythm_loop].
      change (startTimeStamp (this (retraced tr s)))
        with (startTimeStamp (this s)).
      rewrite E, app_nil_r. reflexivity.
    + unfold _playSound in Hrun. cbn [on_this this onClick set_rhythm] in Hrun.
      destruct (onClick (this s)) as [cb|] eqn:Ecb; [|discriminate].
      cbn [bind] in Hrun. apply IH in Hrun. destruct Hrun as (l & Htr & Hall).
      exists (Click cb (Js.ofNullable (startTimeStamp (this s)) + time e)
              :: Tone (Js.ofNullable (startTimeStamp (this s)) + time e)
                   (if accented e then 330 else 220)
                   (Js.ofNullable (startTimeStamp (this s)) + time e
                    + beepDuration) :: l).
      split.
      * rewrite Htr. simpl. rewrite <- !app_assoc. reflexivity.
      * intros tr. cbn [rhythm_loop].
        change (startTimeStamp (this (retraced tr s)))
          with (startTimeStamp (this s)).
        rewrite E. unfold _playSound.
        cbn [on_this this onClick set_rhythm retraced]. rewrite Ecb.
        cbn [bind].
        etransitivity;
          [exact (Hall ((tr ++ [Click cb (Js.ofNullable
                                            (startTimeStamp (this s))
                                          + time e)])
                        ++ [Tone (Js.ofNullable (startTimeStamp (this s))
                                  + time e)
                              (if accented e then 330 else 220)
                              (Js.ofNullable (startTimeStamp (this s))
                               + time e + beepDuration)]))|].
        rewrite <- !app_assoc. reflexivity.
Qed.

Lemma _schedulerForRhythmTrack_retraced (s s' : State) :
  _schedulerForRhythmTrack s = Returns s' ->
  exists l : list effect,
    trace (env s') = trace (env s) ++ l
    /\ forall tr : list effect,
         _schedulerForRhythmTrack (retraced tr s)
         = Returns (retraced (tr ++ l) s').
Proof.
  unfold _schedulerForRhythmTrack. intros Hrun.
  destruct (rhythm (this s)) as [queue|] eqn:Eq; [|discriminate].
  destruct (rhythm_loop (currentTime (env s) + lookAheadTime) queue s)
    as [s1|s1| |] eqn:E; cbn [bind] in Hrun; try discriminate.
  destruct (rhythm_loop_retraced _ queue s s1 E) as (l & Htr & Hall).
  exists l.
  destruct (rhythm_left s1) eqn:El; injection Hrun as <-.
  - split; [exact Htr|]. intros tr.
    change (rhythm (this (retraced tr s))) with (rhythm (this s)).
    rewrite Eq.
    change (currentTime (env (retraced tr s))) with (currentTime (env s)).
    rewrite Hall. cbn [bind].
    change (rhythm_left (retraced (tr ++ l) s1)) with (rhythm_left s1).
    rewrite El. reflexivity.
  - split; [exact Htr|]. intros tr.
    change (rhythm (this (retraced tr s))) with (rhythm (this s)).
    rewrite Eq.
    change (currentTime (env (retraced tr s))) with (currentTime (env s)).
    rewrite Hall. cbn [bind].
    change (rhythm_left (retraced (tr ++ l) s1)) with (rhythm_left s1).
    rewrite El. reflexivity.
Qed.

Lemma tick_at_cases (fuel : nat) (t : Q) (tr : list effect) (s : State) :
  tick_at fuel t (retraced tr s)
  = match timerID (this s) with
    | Some h =>
        match armed h s with
        | Some tm =>
            match action tm with
            | Scheduler =>
                _scheduler fuel
                  (retraced tr (clearTimeout (Some h) (setClock t s)))
            | SchedulerForRhythmTrack =>
                _schedulerForRhythmTrack
                  (retraced tr (clearTimeout (Some h) (setClock t s)))
            end
        | None => Returns (retraced tr (setClock t s))
        end
    | None => Returns (retraced tr (setClock t s))
    end.
Proof. reflexivity. Qed.

(** A timer event does not look at the trace either. *)
Lemma tick_at_retraced (fuel : nat) (t : Q) (s s' : State) :
  tick_at fuel t s = Returns s' ->
  exists l : list effect,
    trace (env s') = trace (env s) ++ l
    /\ forall tr : list effect,
         tick_at fuel t (retraced tr s) = Returns (retraced (tr ++ l) s').
Proof.
  intros Hrun. rewrite <- (retraced_own s) in Hrun at 1.
  rewrite tick_at_cases in Hrun.
  assert (Hnone : forall s1 : State,
             Returns (retraced (trace (env s)) (setClock t s)) = Returns s1 ->
             exists l : list effect,
               trace (env s1) = trace (env s) ++ l
               /\ forall tr : list effect,
                    Returns (retraced tr (setClock t s))
                    = Returns (retraced (tr ++ l) s1)).
  { intros s1 H. injection H as <-. exists [].
    split; [simpl; rewrite app_nil_r; reflexivity|].
    intros tr. rewrite app_nil_r. reflexivity. }
  assert (Hsame : forall h,
             retraced (trace (env s)) (clearTimeout (Some h) (setClock t s))
             = clearTimeout (Some h) (setClock t s)).
  { intros h. destruct s as [m e]. destruct e. reflexivity. }
  destruct (timerID (this s)) as [h|] eqn:Eid.
  - destruct (armed h s) as [tm|] eqn:Earmed.
    + rewrite Hsame in Hrun. destruct (action tm) eqn:Eact.
      * apply _scheduler_retraced in Hrun. destruct Hrun as (l & Htr & Hall).
        exists l. split; [exact Htr|]. intros tr.
        rewrite tick_at_cases, Eid, Earmed, Eact. exact (Hall tr).
      * apply _schedulerForRhythmTrack_retraced in Hrun.
        destruct Hrun as (l & Htr & Hall).
        exists l. split; [exact Htr|]. intros tr.
        rewrite tick_at_cases, Eid, Earmed, Eact. exact (Hall tr).
    + destruct (Hnone s' Hrun) as (l & Htr & Hall).
      exists l. split; [exact Htr|]. intros tr.
      rewrite tick_at_cases, Eid, Earmed. exact (Hall tr).
  - destruct (Hnone s' Hrun) as (l & Htr & Hall).
    exists l. split; [exact Htr|]. intros tr.
    rewrite tick_at_cases, Eid. exact (Hall tr).
Qed.

(** X13.  [peep()] commands one tone of 220 Hz at the current clock time
    and changes nothing else: no field of the object, no timer, and the
    observer is not called.  So a session goes on as if nothing had been:
    the next timer event after a [peep()] leaves the object and the timers
    as it would have left them, and adds the same effects. *)
Theorem peep_does_not_disturb_the_session
    (fuel : nat) (t : Q) (s s' : State) :
  tick_at fuel t s = Returns s' ->
  this (peep s) = this s
  /\ pending (env (peep s)) = pending (env s)
  /\ tones (trace (env (peep s)))
     = tones (trace (env s)) ++ [(currentTime (env s), 220)]
  /\ (forall (cb : nat) (u : Q),
        In (Click cb u) (trace (env (peep s))) ->
        In (Click cb u) (trace (env s)))
  /\ exists (l : list effect) (s'' : State),
       trace (env s') = trace (env s) ++ l
       /\ tick_at fuel t (peep s) = Returns s''
       /\ this s'' = this s'
       /\ pending (env s'') = pending (env s')
       /\ trace (env s'') = trace (env (peep s)) ++ l.
Proof.
  intros Hrun.
  assert (Hpeep : peep s = retraced (trace (env (peep s))) s).
  { destruct s as [m e]. destruct e as [now su pe nh tr].
    unfold peep. destruct su; reflexivity. }
  split; [rewrite Hpeep; reflexivity|].
  split; [rewrite Hpeep; reflexivity|].
  split.
  { destruct s as [m e]. destruct e as [now su pe nh tr].
    unfold peep. destruct su; simpl; rewrite !tones_app; simpl;
      rewrite ?app_nil_r; reflexivity. }
  split.
  { intros cb u. destruct s as [m e]. destruct e as [now su pe nh tr].
    unfold peep. destruct su; simpl; rewrite !in_app_iff; simpl;
      intros H; decompose [or] H; try discriminate; try contradiction;
      assumption. }
  destruct (tick_at_retraced fuel t s s' Hrun) as (l & Htr & Hall).
  exists l, (retraced (trace (env (peep s)) ++ l) s').
  split; [exact Htr|]. split; [|split; [reflexivity|split; reflexivity]].
  rewrite Hpeep at 1. apply Hall.
Qed.

Lemma peep_does_not_disturb_the_session_witness :
  exists (l : list effect) (s'' : State),
    trace (env (result (tick_at 3 (6 # 10) ticked) ticked))
    = trace (env ticked) ++ l
    /\ tick_at 3 (6 # 10) (peep ticked) = Returns s''
    /\ this s'' = this (result (tick_at 3 (6 # 10) ticked) ticked)
    /\ pending (env s'')
       = pending (env (result (tick_at 3 (6 # 10) ticked) ticked))
    /\ trace (env s'') = trace (env (peep ticked)) ++ l.
Proof.
  apply (peep_does_not_disturb_the_session 3 (6 # 10) ticked
           (result (tick_at 3 (6 # 10) ticked) ticked)).
  vm_compute. reflexivity.
Defined.

(** * The recorder component *)

(** ** The trace only grows *)

Lemma start_grows (fuel : nat) (v w : Js.value) (s s' : State) :
  start fuel v w s = Returns s' \/ start fuel v w s = Throws s' ->
  exists l : list effect, trace (env s') = trace (env s) ++ l.
Proof.
  intros Hrun.
  destruct (start_cases fuel v w s)
    as [[m Hm]|(b & a & _ & _ & _ & _ & Hs)].
  - rewrite Hm in Hrun. destruct Hrun as [H|H]; [|discriminate].
    injection H as <-. eexists. reflexivity.
  - rewrite Hs in Hrun.
    assert (Hc : exists l0, trace (env (configured b a s))
                            = trace (env s) ++ l0).
    { destruct s as [m e]. destruct e as [now su pe nh tr].
      unfold configured. destruct su; simpl; rewrite <- ?app_assoc;
        eexists; reflexivity. }
    destruct Hc as [l0 Hl0].
    destruct Hrun as [H|H].
    + destruct (_scheduler_frame fuel _ s' H) as (l & _ & Henv & _).
      exists (l0 ++ l). rewrite Henv. cbn [trace]. rewrite Hl0, app_assoc.
      reflexivity.
    + apply _scheduler_throws in H. destruct H as [-> _].
      exists l0. exact Hl0.
Qed.

Lemma skipn_added (s s' : State) (l : list effect) :
  trace (env s') = trace (env s) ++ l -> Recorder.added s s' = l.
Proof.
  intros H. unfold Recorder.added. rewrite H.
  rewrite skipn_app, skipn_all, Nat.sub_diag. reflexivity.
Qed.

(** ** The observer *)

Lemma deliver_app (l1 l2 : list effect) :
  forall c : Recorder.Fields,
    Recorder.deliver (l1 ++ l2) c = Recorder.deliver l2 (Recorder.deliver l1 c).
Proof.
  induction l1 as [|e l1 IH]; intros c; [reflexivity|].
  destruct e; simpl; try apply IH.
  destruct (observer =? Recorder.observerName)%nat; apply IH.
Qed.

(** The observer only ever adds to [metronomeClicks]. *)
Lemma deliver_fields (l : list effect) :
  forall c : Recorder.Fields,
    Recorder.deliver l c
    = {| Recorder.isRecording := Recorder.isRecording c;
         Recorder.recordingStartTime := Recorder.recordingStartTime c;
         Recorder.recordingStopTime := Recorder.recordingStopTime c;
         Recorder.noteOns := Recorder.noteOns c;
         Recorder.noteOffs := Recorder.noteOffs c;
         Recorder.audioRecorder := Recorder.audioRecorder c;
         Recorder.bpm := Recorder.bpm c;
         Recorder.beep := Recorder.beep c;
         Recorder.accent := Recorder.accent c;
         Recorder.audio := Recorder.audio c;
         Recorder.notes := Recorder.notes c;
         Recorder.metronomeClicks :=
           Recorder.metronomeClicks c
           ++ click_times Recorder.observerName l;
         Recorder.metronomeAccents := Recorder.metronomeAccents c;
         Recorder.console := Recorder.console c |}.
Proof.
  induction l as [|e l IH]; intros c.
  - destruct c. simpl. rewrite app_nil_r. reflexivity.
  - destruct e; simpl; try apply IH.
    destruct (observer =? Recorder.observerName)%nat; [|apply IH].
    rewrite IH. simpl. rewrite <- app_assoc. reflexivity.
Qed.

Lemma call_accents (f : State -> outcome) (app app' : Recorder.App) :
  Recorder.call f app = Recorder.Done app'
  \/ Recorder.call f app = Recorder.Raised app' ->
  Recorder.metronomeAccents (Recorder.component app')
  = Recorder.metronomeAccents (Recorder.component app).
Proof.
  unfold Recorder.call.
  destruct (f (Recorder.metro app)) as [s'|s'| |];
    intros [H|H]; try discriminate; injection H as <-;
    cbn [Recorder.component]; rewrite deliver_fields; reflexivity.
Qed.

Lemma step_accents (fuel : nat) (ev : Recorder.event)
    (app app' : Recorder.App) :
  Recorder.metronomeAccents (Recorder.component app) = [] ->
  Recorder.step fuel ev app = Recorder.Done app'
  \/ Recorder.step fuel ev app = Recorder.Raised app' ->
  Recorder.metronomeAccents (Recorder.component app') = [].
Proof.
  intros Hacc Hstep. destruct ev as [now|now|blob|t|e|e]; cbn [Recorder.step] in Hstep.
  - unfold Recorder.start in Hstep.
    cbn [Recorder.audioRecorder Recorder.bpm Recorder.beep Recorder.accent]
      in Hstep.
    destruct (negb (Recorder.audioRecorder (Recorder.component app))).
    { destruct Hstep as [H|H]; [discriminate|]. injection H as <-.
      exact Hacc. }
    destruct (Recorder.divide _ _) as [tempo|];
      [|destruct Hstep; discriminate].
    match type of Hstep with
    | context [Recorder.call ?f ?a] =>
        destruct (Recorder.call f a) as [app1|app1| |] eqn:E;
          [pose proof (call_accents f a app1 (or_introl E)) as H1
          |pose proof (call_accents f a app1 (or_intror E)) as H1
          |destruct Hstep; discriminate|destruct Hstep; discriminate]
    end.
    + destruct Hstep as [H|H]; [|discriminate]. injection H as <-.
      cbn [Recorder.component Recorder.metronomeAccents] in *.
      rewrite H1. exact Hacc.
    + destruct Hstep as [H|H]; [discriminate|]. injection H as <-.
      rewrite H1. exact Hacc.
  - unfold Recorder.stop_begin in Hstep.
    match type of Hstep with
    | context [Recorder.call ?f ?a] =>
        destruct (Recorder.call f a) as [app1|app1| |] eqn:E;
          [pose proof (call_accents f a app1 (or_introl E)) as H1
          |pose proof (call_accents f a app1 (or_intror E)) as H1
          |destruct Hstep; discriminate|destruct Hstep; discriminate]
    end.
    + cbn [Recorder.audioRecorder] in Hstep.
      destruct (negb (Recorder.audioRecorder (Recorder.component app1)));
        destruct Hstep as [H|H]; try discriminate; injection H as <-;
        cbn [Recorder.component Recorder.metronomeAccents] in *;
        rewrite H1; exact Hacc.
    + destruct Hstep as [H|H]; [discriminate|]. injection H as <-.
      rewrite H1. exact Hacc.
  - destruct Hstep as [H|H]; [|discriminate]. injection H as <-.
    unfold Recorder.stop_finish. cbn [Recorder.component Recorder.metronomeAccents].
    rewrite Hacc. reflexivity.
  - unfold Recorder.tick in Hstep.
    rewrite (call_accents _ _ _ Hstep). exact Hacc.
  - destruct Hstep as [H|H]; [|discriminate]. injection H as <-. exact Hacc.
  - destruct Hstep as [H|H]; [|discriminate]. injection H as <-. exact Hacc.
Qed.

(** X14.  The accents are never recorded.  The metronome calls the
    observer with the time alone, so the observer's [isAccent] is
    [undefined] and nothing is ever pushed to [metronomeAccents]: from a
    component whose [metronomeAccents] is empty, as it is when mounted, it
    is empty in every state the component gets into, whatever is
    pressed, played and recorded. *)
Theorem accents_are_never_recorded (app0 app : Recorder.App) :
  Recorder.metronomeAccents (Recorder.component app0) = [] ->
  Recorder.reachable app0 app ->
  Recorder.metronomeAccents (Recorder.component app) = [].
Proof.
  intros H0 Hreach.
  induction Hreach as [|fuel ev app app' _ IH Hstep|fuel ev app app' _ IH Hstep].
  - exact H0.
  - exact (step_accents fuel ev app app' IH (or_introl Hstep)).
  - exact (step_accents fuel ev app app' IH (or_intror Hstep)).
Qed.

Lemma accents_are_never_recorded_witness :
  Recorder.metronomeAccents (Recorder.component recorder_played) = [].
Proof.
  apply (accents_are_never_recorded recorder_mounted recorder_played).
  - reflexivity.
  - apply (Recorder.reach_done recorder_mounted 5
             (Recorder.TimerDue (11 # 10))
             (recorder_done (Recorder.run 5 [1 # 10] recorder_started)
                            recorder_started)).
    + apply (Recorder.reach_done recorder_mounted 5
               (Recorder.TimerDue (1 # 10)) recorder_started).
      * apply (Recorder.reach_done recorder_mounted 5
                 (Recorder.PressStart 1000) recorder_mounted).
        -- apply Recorder.reach_here.
        -- vm_compute. reflexivity.
      * vm_compute. reflexivity.
    + vm_compute. reflexivity.
Defined.

(** ** Clicks and tones go together *)

(** Every stretch of trace that a tick adds hands the observer exactly the
    times of the tones it commands. *)
Lemma scheduler_loop_pairs (a spb : Q) (cb : nat) :
  forall (fuel : nat) (next : Q) (s s' : State),
    onClick (this s) = Some cb ->
    scheduler_loop fuel a spb next s = Returns s' ->
    exists l : list effect,
      trace (env s') = trace (env s) ++ l
      /\ click_times cb l = map fst (tones l)
      /\ onClick (this s') = Some cb.
Proof.
  induction fuel as [|fuel IH]; intros next s s' Hcb Hrun; [discriminate|].
  rewrite scheduler_loop_S in Hrun.
  destruct (Js.ltb next (currentTime (env s) + lookAheadTime)).
  - unfold _playSound in Hrun. rewrite Hcb in Hrun. cbn [bind] in Hrun.
    apply IH in Hrun; [|exact Hcb].
    destruct Hrun as (l & Htr & Hpairs & Hcb').
    exists (Click cb (next + spb)
            :: Tone (next + spb)
                 (if isAccent a (beatCount (this s)) then 330 else 220)
                 (next + spb + beepDuration) :: l).
    split; [rewrite Htr; simpl; rewrite <- !app_assoc; reflexivity|].
    split; [|exact Hcb'].
    simpl. rewrite Nat.eqb_refl, Hpairs. reflexivity.
  - injection Hrun as <-. exists [].
    split; [rewrite app_nil_r; reflexivity|]. split; [reflexivity|exact Hcb].
Qed.

Lemma rhythm_loop_pairs (endTime : Q) (cb : nat) :
  forall (queue : list Beep) (s s' : State),
    onClick (this s) = Some cb ->
    rhythm_loop endTime queue s = Returns s' ->
    exists l : list effect,
      trace (env s') = trace (env s) ++ l
      /\ click_times cb l = map fst (tones l)
      /\ onClick (this s') = Some cb.
Proof.
  induction queue as [|e queue IH]; intros s s' Hcb Hrun.
  - injection Hrun as <-. exists [].
    split; [rewrite app_nil_r; reflexivity|]. split; [reflexivity|exact Hcb].
  - cbn [rhythm_loop] in Hrun.
    destruct (Js.ltb endTime
                (Js.ofNullable (startTimeStamp (this s)) + time e)).
    + injection Hrun as <-. exists [].
      split; [rewrite app_nil_r; reflexivity|].
      split; [reflexivity|exact Hcb].
    + unfold _playSound in Hrun. cbn [on_this this onClick set_rhythm] in Hrun.
      rewrite Hcb in Hrun. cbn [bind] in Hrun.
      apply IH in Hrun; [|exact Hcb].
      destruct Hrun as (l & Htr & Hpairs & Hcb').
      exists (Click cb (Js.ofNullable (startTimeStamp (this s)) + time e)
              :: Tone (Js.ofNullable (startTimeStamp (this s)) + time e)
                   (if accented e then 330 else 220)
                   (Js.ofNullable (startTimeStamp (this s)) + time e
                    + beepDuration) :: l).
      split; [rewrite Htr; simpl; rewrite <- !app_assoc; reflexivity|].
      split; [|exact Hcb'].
      simpl. rewrite Nat.eqb_refl, Hpairs. reflexivity.
Qed.

Lemma tick_at_pairs (fuel : nat) (t : Q) (cb : nat) (s s' : State) :
  onClick (this s) = Some cb ->
  tick_at fuel t s = Returns s' ->
  exists l : list effect,
    trace (env s') = trace (env s) ++ l
    /\ click_times cb l = map fst (tones l)
    /\ onClick (this s') = Some cb.
Proof.
  intros Hcb Hrun.
  assert (Hnone : exists l : list effect,
             trace (env (setClock t s)) = trace (env s) ++ l
             /\ click_times cb l = map fst (tones l)
             /\ onClick (this (setClock t s)) = Some cb).
  { exists []. split; [simpl; rewrite app_nil_r; reflexivity|].
    split; [reflexivity|exact Hcb]. }
  unfold tick_at in Hrun.
  destruct (timerID (this s)) as [h|]; [|injection Hrun as <-; exact Hnone].
  unfold fire in Hrun.
  destruct (armed h (setClock t s)) as [tm|];
    [|injection Hrun as <-; exact Hnone].
  destruct (action tm).
  - unfold _scheduler in Hrun.
    destruct (Qeq_bool _ 0); [discriminate|].
    match type of Hrun with
    | context [scheduler_loop fuel ?a ?spb ?next ?s0] =>
        destruct (scheduler_loop fuel a spb next s0) as [s1|s1| |] eqn:E;
          cbn [bind] in Hrun; try discriminate;
          destruct (scheduler_loop_pairs a spb cb fuel next s0 s1 Hcb E)
            as (l & Htr & Hpairs & Hcb')
    end.
    injection Hrun as <-. exists l.
    split; [exact Htr|]. split; [exact Hpairs|exact Hcb'].
  - unfold _schedulerForRhythmTrack in Hrun.
    destruct (rhythm (this (clearTimeout (Some h) (setClock t s))))
      as [queue|]; [|discriminate].
    match type of Hrun with
    | context [rhythm_loop ?endT queue ?s0] =>
        destruct (rhythm_loop endT queue s0) as [s1|s1| |] eqn:E;
          cbn [bind] in Hrun; try discriminate;
          destruct (rhythm_loop_pairs endT cb queue s0 s1 Hcb E)
            as (l & Htr & Hpairs & Hcb')
    end.
    exists l.
    destruct (rhythm_left s1); injection Hrun as <-;
      (split; [exact Htr|]); (split; [exact Hpairs|exact Hcb']).
Qed.

(** The timers of the component are the ticks of its metronome, and the
    clicks recorded meanwhile are the times of the tones commanded
    meanwhile. *)
Lemma run_ticks (fuel : nat) (ts : list Q) :
  forall app app' : Recorder.App,
    Recorder.wired app ->
    Recorder.run fuel ts app = Recorder.Done app' ->
    ticks fuel ts (Recorder.metro app) = Returns (Recorder.metro app')
    /\ Recorder.wired app'
    /\ exists l : list effect,
         trace (env (Recorder.metro app'))
         = trace (env (Recorder.metro app)) ++ l
         /\ Recorder.component app'
            = Recorder.deliver l (Recorder.component app)
         /\ click_times Recorder.observerName l = map fst (tones l).
Proof.
  induction ts as [|t ts IH]; intros app app' Hw Hrun.
  - injection Hrun as <-. split; [reflexivity|]. split; [exact Hw|].
    exists []. rewrite app_nil_r. repeat split.
  - cbn [Recorder.run] in Hrun. unfold Recorder.tick, Recorder.call in Hrun.
    destruct (tick_at fuel t (Recorder.metro app)) as [s1|s1| |] eqn:E;
      try discriminate.
    destruct (tick_at_pairs fuel t _ _ s1 Hw E) as (l1 & Htr1 & Hp1 & Hw1).
    rewrite (skipn_added _ _ l1 Htr1) in Hrun.
    apply IH in Hrun; [|exact Hw1].
    cbn [Recorder.metro Recorder.component] in Hrun.
    destruct Hrun as (Hticks & Hw' & l2 & Htr2 & Hc2 & Hp2).
    split; [cbn [ticks]; rewrite E; exact Hticks|]. split; [exact Hw'|].
    exists (l1 ++ l2).
    split; [rewrite Htr2, Htr1, app_assoc; reflexivity|].
    split; [rewrite Hc2, deliver_app; reflexivity|].
    rewrite tones_app, map_app, <- Hp1, <- Hp2.
    clear. induction l1 as [|e l1 IH]; [reflexivity|].
    destruct e; simpl; try exact IH.
    destruct (observer =? Recorder.observerName)%nat; simpl;
      rewrite IH; reflexivity.
Qed.

(** ** [start] of the component *)

Lemma tempo_pos (p q : Q) : 0 < p -> 0 < q -> 0 < p / q.
Proof.
  intros Hp Hq. apply Qlt_shift_div_l; [exact Hq|]. lra.
Qed.

(** With numbers for its settings and its audio recorder ready, [start] of
    the component is [start] of the metronome at the tempo [bpm / beep],
    followed by the reset of [metronomeClicks]. *)
Lemma recorder_start_calls_metronome
    (fuel : nat) (now p q : Q) (w : Js.value) (app : Recorder.App) :
  Recorder.audioRecorder (Recorder.component app) = true ->
  Recorder.bpm (Recorder.component app) = Js.Num (Js.Fin p) ->
  Recorder.beep (Recorder.component app) = Js.Num (Js.Fin q) ->
  Recorder.accent (Recorder.component app) = w ->
  0 < q ->
  Recorder.start fuel now app
  = match start fuel (Js.Num (Js.Fin (p / q))) w (Recorder.metro app) with
    | Returns s' =>
        Recorder.Done
          (Recorder.mkApp
             {| Recorder.isRecording := true;
                Recorder.recordingStartTime := Js.Num (Js.Fin now);
                Recorder.recordingStopTime :=
                  Recorder.recordingStopTime (Recorder.component app);
                Recorder.noteOns := [];
                Recorder.noteOffs := [];
                Recorder.audioRecorder := true;
                Recorder.bpm := Js.Num (Js.Fin p);
                Recorder.beep := Js.Num (Js.Fin q);
                Recorder.accent := w;
                Recorder.audio := None;
                Recorder.notes := None;
                Recorder.metronomeClicks := [];
                Recorder.metronomeAccents :=
                  Recorder.metronomeAccents (Recorder.component app);
                Recorder.console :=
                  Recorder.console (Recorder.component app)
                  ++ [Recorder.LogStart now] |}
             s')
    | Throws s' =>
        Recorder.Raised
          (Recorder.mkApp
             (Recorder.deliver (Recorder.added (Recorder.metro app) s')
                {| Recorder.isRecording := true;
                   Recorder.recordingStartTime :=
                     Recorder.recordingStartTime (Recorder.component app);
                   Recorder.recordingStopTime :=
                     Recorder.recordingStopTime (Recorder.component app);
                   Recorder.noteOns := [];
                   Recorder.noteOffs := [];
                   Recorder.audioRecorder := true;
                   Recorder.bpm := Js.Num (Js.Fin p);
                   Recorder.beep := Js.Num (Js.Fin q);
                   Recorder.accent := w;
                   Recorder.audio := None;
                   Recorder.notes := None;
                   Recorder.metronomeClicks :=
                     Recorder.metronomeClicks (Recorder.component app);
                   Recorder.metronomeAccents :=
                     Recorder.metronomeAccents (Recorder.component app);
                   Recorder.console :=
                     Recorder.console (Recorder.component app) |})
             s')
    | Unmodelled => Recorder.NotModelled
    | OutOfFuel => Recorder.NoFuel
    end.
Proof.
  intros Hrec Hbpm Hbeep Hacc Hq.
  unfold Recorder.start.
  cbn [Recorder.audioRecorder Recorder.bpm Recorder.beep Recorder.accent].
  rewrite Hrec, Hbpm, Hbeep, Hacc. cbn [negb].
  unfold Recorder.divide. cbn [Js.toNumber]. rewrite (Qeq_bool_pos q Hq).
  unfold Recorder.call. cbn [Recorder.metro Recorder.component].
  destruct (start fuel (Js.Num (Js.Fin (p / q))) w (Recorder.metro app))
    as [s'|s'| |]; try reflexivity.
  rewrite deliver_fields. reflexivity.
Qed.

(** X15.  [start] of the component, with positive numbers for [bpm] and
    [beep], a non-zero number for the accent and the audio recorder
    ready, starts the metronome at [bpm / beep] and returns recording,
    with the lists of MIDI events emptied and [recordingStartTime] set.
    It also returns with [metronomeClicks] empty, although the metronome
    has by then called the observer for its first beats, the one at the
    current clock time among them: [metronomeClicks] is emptied after
    [metro.start], so the beats of the first window are never recorded. *)
Theorem recorder_start_forgets_first_clicks
    (now p q a : Q) (app : Recorder.App) :
  Recorder.wired app ->
  Recorder.audioRecorder (Recorder.component app) = true ->
  Recorder.bpm (Recorder.component app) = Js.Num (Js.Fin p) ->
  Recorder.beep (Recorder.component app) = Js.Num (Js.Fin q) ->
  Recorder.accent (Recorder.component app) = Js.Num (Js.Fin a) ->
  0 < p -> 0 < q -> ~ a == 0 ->
  (exists (fuel : nat) (app' : Recorder.App),
      Recorder.start fuel now app = Recorder.Done app')
  /\ (forall (fuel : nat) (app' : Recorder.App),
        Recorder.start fuel now app = Recorder.Done app' ->
        Recorder.isRecording (Recorder.component app') = true
        /\ Recorder.recordingStartTime (Recorder.component app')
           = Js.Num (Js.Fin now)
        /\ Recorder.noteOns (Recorder.component app') = []
        /\ Recorder.noteOffs (Recorder.component app') = []
        /\ Recorder.metronomeClicks (Recorder.component app') = []
        /\ isPlaying (this (Recorder.metro app')) = true
        /\ bpm (this (Recorder.metro app')) = Some (p / q)
        /\ exists (x : Q * Q) (l : list (Q * Q)),
             tones (trace (env (Recorder.metro app')))
             = tones (trace (env (Recorder.metro app))) ++ x :: l
             /\ fst x == currentTime (env (Recorder.metro app))
             /\ In (fst x)
                   (click_times Recorder.observerName
                      (Recorder.added (Recorder.metro app)
                                      (Recorder.metro app')))).
Proof.
  intros Hw Hrec Hbpm Hbeep Hacc Hp Hq Ha.
  pose proof (tempo_pos p q Hp Hq) as Hb.
  pose proof (spb_pos (p / q) Hb) as Hspb.
  destruct (start_playing (Recorder.metro app) (p / q) a
              Recorder.observerName Hb Ha Hw) as [[fuel [s' Hrun]] Hall].
  split.
  - exists fuel. eexists.
    rewrite (recorder_start_calls_metronome fuel now p q _ app
               Hrec Hbpm Hbeep Hacc Hq), Hrun.
    reflexivity.
  - clear fuel s' Hrun. intros fuel app' Hrun.
    rewrite (recorder_start_calls_metronome fuel now p q _ app
               Hrec Hbpm Hbeep Hacc Hq) in Hrun.
    destruct (start fuel (Js.Num (Js.Fin (p / q))) (Js.Num (Js.Fin a))
                (Recorder.metro app)) as [s'|s'| |] eqn:E; try discriminate.
    injection Hrun as <-. cbn [Recorder.component Recorder.metro].
    destruct (Hall fuel s' E) as [N Hinv].
    destruct (playing_beats _ s' _ a _ N Hinv) as (l & Hl & Hlen & Hnth & HN).
    assert (H0 : (0 < N)%nat).
    { apply HN. unfold beatTime, lookAheadTime. rewrite ofNat_0. lra. }
    destruct Hinv as (Hplay & Hb' & _).
    repeat (split; [reflexivity|]).
    split; [exact Hplay|]. split; [exact Hb'|].
    destruct l as [|x l]; [simpl in Hlen; lia|].
    exists x, l. split; [exact Hl|].
    destruct (Hnth 0%nat x eq_refl) as [Hx _].
    split; [rewrite Hx; unfold beatTime; rewrite ofNat_0; ring|].
    (* the observer was called for it *)
    rewrite (start_accepted fuel (p / q) a _ (pos_neq0 _ Hb) Ha) in E.
    destruct (configured_fields (p / q) a (Recorder.metro app))
      as (Cthis & _ & _ & _ & _ & Ctones).
    assert (Hcb : onClick (this (configured (p / q) a (Recorder.metro app)))
                  = Some Recorder.observerName)
      by (rewrite Cthis; exact Hw).
    unfold _scheduler in E.
    destruct (Qeq_bool _ 0); [discriminate|].
    match type of E with
    | context [scheduler_loop fuel ?a0 ?spb ?next ?s0] =>
        destruct (scheduler_loop fuel a0 spb next s0) as [s1|s1| |] eqn:E1;
          cbn [bind] in E; try discriminate;
          destruct (scheduler_loop_pairs a0 spb _ fuel next s0 s1 Hcb E1)
            as (l1 & Htr1 & Hp1 & _)
    end.
    injection E as <-.
    assert (Hc : exists l0, trace (env (configured (p / q) a (Recorder.metro app)))
                            = trace (env (Recorder.metro app)) ++ l0
                            /\ tones l0 = []
                            /\ click_times Recorder.observerName l0 = []).
    { destruct (Recorder.metro app) as [m e]. destruct e as [t su pe nh tr].
      unfold configured. destruct su; simpl; rewrite <- ?app_assoc;
        eexists; (split; [reflexivity|split; reflexivity]). }
    destruct Hc as (l0 & Hl0 & Ht0 & Hc0).
    assert (Hadd : Recorder.added (Recorder.metro app)
                     (plan Scheduler s1) = l0 ++ l1).
    { apply skipn_added. cbn [plan]. simpl. rewrite Htr1, Hl0, app_assoc.
      reflexivity. }
    rewrite Hadd.
    assert (Hclicks : click_times Recorder.observerName (l0 ++ l1)
                      = map fst (tones l1)).
    { rewrite <- Hp1. clear - Hc0.
      induction l0 as [|e l0 IH]; [reflexivity|].
      destruct e; simpl in *; try (apply IH; exact Hc0).
      destruct (observer =? Recorder.observerName)%nat;
        [discriminate|apply IH; exact Hc0]. }
    rewrite Hclicks.
    assert (Htones : tones l1 = x :: l).
    { simpl in Hl. rewrite Htr1, tones_app, Ctones in Hl.
      apply app_inv_head in Hl. exact Hl. }
    rewrite Htones. left. reflexivity.
Qed.

Lemma recorder_start_forgets_first_clicks_witness :
  exists (fuel : nat) (app' : Recorder.App),
    Recorder.start fuel 1000 recorder_mounted = Recorder.Done app'.
Proof.
  apply (recorder_start_forgets_first_clicks 1000 120 1 1 recorder_mounted);
    try reflexivity.
  discriminate.
Defined.

(** ** [stop] of the component *)

(** Up to its [await], [stop] stops the metronome and takes the time. *)
Lemma recorder_stop_begin_done (now : Q) (app : Recorder.App) :
  Recorder.audioRecorder (Recorder.component app) = true ->
  Recorder.stop_begin now app
  = Recorder.Done
      (Recorder.mkApp
         {| Recorder.isRecording := Recorder.isRecording (Recorder.component app);
            Recorder.recordingStartTime :=
              Recorder.recordingStartTime (Recorder.component app);
            Recorder.recordingStopTime := Js.Num (Js.Fin now);
            Recorder.noteOns := Recorder.noteOns (Recorder.component app);
            Recorder.noteOffs := Recorder.noteOffs (Recorder.component app);
            Recorder.audioRecorder := true;
            Recorder.bpm := Recorder.bpm (Recorder.component app);
            Recorder.beep := Recorder.beep (Recorder.component app);
            Recorder.accent := Recorder.accent (Recorder.component app);
            Recorder.audio := Recorder.audio (Recorder.component app);
            Recorder.notes := Recorder.notes (Recorder.component app);
            Recorder.metronomeClicks :=
              Recorder.metronomeClicks (Recorder.component app);
            Recorder.metronomeAccents :=
              Recorder.metronomeAccents (Recorder.component app);
            Recorder.console :=
              Recorder.console (Recorder.component app) ++ [Recorder.LogStop] |}
         (stop (Recorder.metro app))).
Proof.
  intros Hrec. unfold Recorder.stop_begin, Recorder.call.
  cbn [Recorder.metro Recorder.component].
  rewrite (skipn_added _ _ [ConsoleLog Stopped])
    by (destruct (stop_fields (Recorder.metro app))
          as (_ & _ & _ & _ & H & _); exact H).
  cbn [Recorder.deliver Recorder.audioRecorder]. rewrite Hrec. reflexivity.
Qed.

Lemma nth_error_map_fst {A B : Type} (l : list (A * B)) (i : nat) (d : A) :
  nth_error (map fst l) i = Some d ->
  exists x : A * B, nth_error l i = Some x /\ fst x = d.
Proof.
  rewrite nth_error_map. destruct (nth_error l i) as [x|]; [|discriminate].
  intros H. injection H as <-. exists x. split; reflexivity.
Qed.

Lemma ofNat_add (i j : nat) : ofNat (i + j) == ofNat i + ofNat j.
Proof.
  unfold ofNat. rewrite Nat2Z.inj_add, inject_Z_plus. reflexivity.
Qed.

(** X16.  One recording, from the button pressed to the audio recorder
    done, with positive numbers for [bpm] and [beep] and timers due at
    clock times that never go back.  The clicks recorded in the end are one
    for each beat the metronome has put out after [start] returned, none
    for the beats of the first window, of which there is at least one.
    They begin at 0 and lie exactly one beat period [60 / (bpm / beep)]
    apart: the click of index [i] is [i] periods.  The metronome is
    stopped, and the component no longer recording. *)
Theorem recorded_clicks_are_periods_from_zero
    (fuel : nat) (now now' p q a : Q) (blob : nat) (ts : list Q)
    (app app1 app2 app3 : Recorder.App) :
  Recorder.wired app ->
  Recorder.audioRecorder (Recorder.component app) = true ->
  Recorder.bpm (Recorder.component app) = Js.Num (Js.Fin p) ->
  Recorder.beep (Recorder.component app) = Js.Num (Js.Fin q) ->
  Recorder.accent (Recorder.component app) = Js.Num (Js.Fin a) ->
  0 < p -> 0 < q -> ~ a == 0 ->
  nondecreasing (currentTime (env (Recorder.metro app))) ts ->
  Recorder.start fuel now app = Recorder.Done app1 ->
  Recorder.run fuel ts app1 = Recorder.Done app2 ->
  Recorder.stop_begin now' app2 = Recorder.Done app3 ->
  exists first played : list (Q * Q),
    tones (trace (env (Recorder.metro app1)))
    = tones (trace (env (Recorder.metro app))) ++ first
    /\ (1 <= length first)%nat
    /\ tones (trace (env (Recorder.metro (Recorder.stop_finish blob app3))))
       = tones (trace (env (Recorder.metro app))) ++ first ++ played
    /\ (forall (i : nat) (x : Q * Q),
          nth_error played i = Some x ->
          fst x == beatTime (currentTime (env (Recorder.metro app))) (p / q)
                     (length first + i))
    /\ length (Recorder.metronomeClicks
                 (Recorder.component (Recorder.stop_finish blob app3)))
       = length played
    /\ (forall (i : nat) (d : Q),
          nth_error (Recorder.metronomeClicks
                       (Recorder.component (Recorder.stop_finish blob app3))) i
          = Some d ->
          d == ofNat i * (60 / (p / q)))
    /\ isPlaying (this (Recorder.metro (Recorder.stop_finish blob app3))) = false
    /\ Recorder.isRecording
         (Recorder.component (Recorder.stop_finish blob app3)) = false.
Proof.
  intros Hw Hrec Hbpm Hbeep Hacc Hp Hq Ha Hts Hstart Hrunning Hstop.
  pose proof (tempo_pos p q Hp Hq) as Hb.
  pose proof (spb_pos (p / q) Hb) as Hspb.
  set (s0 := Recorder.metro app) in *.
  set (t0 := currentTime (env s0)) in *.
  (* start *)
  rewrite (recorder_start_calls_metronome fuel now p q _ app
             Hrec Hbpm Hbeep Hacc Hq) in Hstart.
  fold s0 in Hstart.
  destruct (start fuel (Js.Num (Js.Fin (p / q))) (Js.Num (Js.Fin a)) s0)
    as [s1|s1| |] eqn:E1; try discriminate.
  injection Hstart as <-.
  destruct (proj2 (start_playing s0 (p / q) a Recorder.observerName Hb Ha Hw)
              fuel s1 E1) as [N0 Hinv1].
  destruct (playing_beats s0 s1 _ a _ N0 Hinv1)
    as (L0 & HL0 & Hlen0 & _ & HN0).
  assert (H0 : (0 < N0)%nat).
  { apply HN0. unfold beatTime, lookAheadTime. rewrite ofNat_0. lra. }
  assert (Hw1 : onClick (this s1) = Some Recorder.observerName).
  { destruct Hinv1 as (_ & _ & _ & _ & _ & Hobs & _). rewrite Hobs. exact Hw. }
  (* the timers *)
  apply run_ticks in Hrunning; [|exact Hw1].
  cbn [Recorder.metro Recorder.component] in Hrunning.
  destruct Hrunning as (Hticks & Hw2 & l & Htr & Hc2 & Hpairs).
  set (s2 := Recorder.metro app2) in *.
  assert (Hsession : session fuel (Js.Num (Js.Fin (p / q)))
                       (Js.Num (Js.Fin a)) ts s0 = Returns s2).
  { unfold session. rewrite E1. exact Hticks. }
  destruct (session_returns s0 s2 _ a _ fuel ts Hb Ha Hw Hts Hsession)
    as [N Hinv2].
  destruct (playing_beats s0 s2 _ a _ N Hinv2) as (L & HL & Hlen & Hnth & _).
  assert (HLsplit : L = L0 ++ tones l).
  { rewrite Htr, tones_app, HL0, <- app_assoc in HL.
    apply app_inv_head in HL. symmetry. exact HL. }
  (* stop *)
  assert (Hrec2 : Recorder.audioRecorder (Recorder.component app2) = true).
  { rewrite Hc2, deliver_fields. reflexivity. }
  rewrite (recorder_stop_begin_done now' app2 Hrec2) in Hstop.
  injection Hstop as <-.
  unfold Recorder.stop_finish.
  cbn [Recorder.component Recorder.metro Recorder.metronomeClicks
       Recorder.isRecording].
  fold s2.
  destruct (stop_fields s2) as (Hthis & _ & _ & _ & _ & Htones).
  assert (Hclicks : Recorder.metronomeClicks (Recorder.component app2)
                    = map fst (tones l)).
  { rewrite Hc2, deliver_fields. cbn [Recorder.metronomeClicks].
    rewrite Hpairs. reflexivity. }
  rewrite Hclicks.
  assert (Hplayed : forall (i : nat) (x : Q * Q),
             nth_error (tones l) i = Some x ->
             fst x == beatTime t0 (p / q) (length L0 + i)).
  { intros i x Hi.
    assert (Hi' : nth_error L (length L0 + i) = Some x).
    { rewrite HLsplit, nth_error_app2 by lia.
      replace (length L0 + i - length L0)%nat with i by lia. exact Hi. }
    exact (proj1 (Hnth _ x Hi')). }
  exists L0, (tones l).
  split; [exact HL0|]. split; [lia|].
  split; [rewrite Htones, HL, HLsplit; reflexivity|].
  split; [exact Hplayed|].
  split; [rewrite !length_map; reflexivity|].
  split; [|split; [rewrite Hthis; reflexivity|reflexivity]].
  intros i d Hi.
  rewrite nth_error_map in Hi.
  destruct (nth_error (map fst (tones l)) i) as [di|] eqn:Edi; [|discriminate].
  injection Hi as <-.
  apply nth_error_map_fst in Edi. destruct Edi as (x & Hx & <-).
  pose proof (Hplayed i x Hx) as Hxi.
  destruct (tones l) as [|y rest] eqn:Etl; [destruct i; discriminate|].
  pose proof (Hplayed 0%nat y eq_refl) as Hy0.
  cbn [map Recorder.firstClick]. rewrite Hxi, Hy0.
  unfold beatTime. rewrite Nat.add_0_r, ofNat_add. ring.
Qed.

Lemma recorded_clicks_are_periods_from_zero_witness :
  exists first played : list (Q * Q),
    tones (trace (env (Recorder.metro recorder_started)))
    = tones (trace (env (Recorder.metro recorder_mounted))) ++ first
    /\ (1 <= length first)%nat
    /\ tones (trace (env (Recorder.metro recorder_stopped)))
       = tones (trace (env (Recorder.metro recorder_mounted)))
         ++ first ++ played
    /\ (forall (i : nat) (x : Q * Q),
          nth_error played i = Some x ->
          fst x == beatTime (currentTime (env (Recorder.metro recorder_mounted)))
                     (120 / 1) (length first + i))
    /\ length (Recorder.metronomeClicks (Recorder.component recorder_stopped))
       = length played
    /\ (forall (i : nat) (d : Q),
          nth_error (Recorder.metronomeClicks
                       (Recorder.component recorder_stopped)) i
          = Some d ->
          d == ofNat i * (60 / (120 / 1)))
    /\ isPlaying (this (Recorder.metro recorder_stopped)) = false
    /\ Recorder.isRecording (Recorder.component recorder_stopped) = false.
Proof.
  apply (recorded_clicks_are_periods_from_zero 5 1000 2000 120 1 1 0
           [1 # 10; 11 # 10] recorder_mounted recorder_started
           recorder_played recorder_stopping).
  - reflexivity.
  - reflexivity.
  - reflexivity.
  - reflexivity.
  - reflexivity.
  - reflexivity.
  - reflexivity.
  - discriminate.
  - simpl. repeat split; discriminate.
  - vm_compute. reflexivity.
  - vm_compute. reflexivity.
  - vm_compute. reflexivity.
Defined.

(** ** The notes *)








(** ** Error paths of the component *)

(** X19.  When the audio recorder could not be enabled, [start] of the
    component throws at [audioRecorder.start()], after it has set
    [isRecording]: the metronome is not started, and the component shows
    itself as recording.  [stop] then stops the metronome and throws at
    [audioRecorder.stop()], before it resets [isRecording]: the
    component stays recording. *)
Theorem recorder_without_audio_stays_recording
    (fuel : nat) (now now' : Q) (app : Recorder.App) :
  Recorder.audioRecorder (Recorder.component app) = false ->
  exists app1 app2 : Recorder.App,
    Recorder.start fuel now app = Recorder.Raised app1
    /\ Recorder.isRecording (Recorder.component app1) = true
    /\ Recorder.metro app1 = Recorder.metro app
    /\ Recorder.stop_begin now' app1 = Recorder.Raised app2
    /\ Recorder.isRecording (Recorder.component app2) = true
    /\ Recorder.metro app2 = stop (Recorder.metro app)
    /\ Recorder.notes (Recorder.component app2) = None.
Proof.
  intros Hrec. eexists. eexists.
  split.
  { unfold Recorder.start. cbn [Recorder.audioRecorder]. rewrite Hrec.
    reflexivity. }
  split; [reflexivity|]. split; [reflexivity|].
  split.
  { unfold Recorder.stop_begin, Recorder.call.
    cbn [Recorder.metro Recorder.component].
    rewrite (skipn_added _ _ [ConsoleLog Stopped])
      by (destruct (stop_fields (Recorder.metro app))
            as (_ & _ & _ & _ & H & _); exact H).
    cbn [Recorder.deliver Recorder.audioRecorder]. rewrite ?Hrec.
    reflexivity. }
  split; [reflexivity|]. split; reflexivity.
Qed.

Lemma recorder_without_audio_stays_recording_witness :
  exists app1 app2 : Recorder.App,
    Recorder.start 1 1000 recorder_without_audio = Recorder.Raised app1
    /\ Recorder.isRecording (Recorder.component app1) = true
    /\ Recorder.metro app1 = Recorder.metro recorder_without_audio
    /\ Recorder.stop_begin 2000 app1 = Recorder.Raised app2
    /\ Recorder.isRecording (Recorder.component app2) = true
    /\ Recorder.metro app2 = stop (Recorder.metro recorder_without_audio)
    /\ Recorder.notes (Recorder.component app2) = None.
Proof.
  apply (recorder_without_audio_stays_recording 1 1000 2000
           recorder_without_audio).
  reflexivity.
Defined.

(** X20.  With a tempo of 0 in its field, [start] of the component still
    returns recording: the metronome turns the tempo [0 / beep] away with
    an error on the console and stays as it was, silent and with no timer
    armed for it, and the component does not notice. *)
Theorem recorder_with_zero_tempo_records_in_silence
    (fuel : nat) (now p q : Q) (app : Recorder.App) :
  Recorder.audioRecorder (Recorder.component app) = true ->
  Recorder.bpm (Recorder.component app) = Js.Num (Js.Fin p) ->
  Recorder.beep (Recorder.component app) = Js.Num (Js.Fin q) ->
  p == 0 -> 0 < q ->
  exists app' : Recorder.App,
    Recorder.start fuel now app = Recorder.Done app'
    /\ Recorder.isRecording (Recorder.component app') = true
    /\ this (Recorder.metro app') = this (Recorder.metro app)
    /\ pending (env (Recorder.metro app')) = pending (env (Recorder.metro app))
    /\ tones (trace (env (Recorder.metro app')))
       = tones (trace (env (Recorder.metro app)))
    /\ trace (env (Recorder.metro app'))
       = trace (env (Recorder.metro app))
         ++ [ConsoleError (InvalidBpm (Js.Num (Js.Fin (p / q))))].
Proof.
  intros Hrec Hbpm Hbeep Hp Hq.
  rewrite (recorder_start_calls_metronome fuel now p q _ app
             Hrec Hbpm Hbeep eq_refl Hq).
  assert (Hrej : start fuel (Js.Num (Js.Fin (p / q)))
                   (Recorder.accent (Recorder.component app))
                   (Recorder.metro app)
                 = Returns (emit (ConsoleError
                                    (InvalidBpm (Js.Num (Js.Fin (p / q)))))
                                 (Recorder.metro app))).
  { apply start_rejects_bpm. left. simpl.
    assert (E : p / q == 0) by (rewrite Hp; field; apply pos_neq0; exact Hq).
    apply Qeq_bool_iff in E. rewrite E. reflexivity. }
  rewrite Hrej. eexists. split; [reflexivity|].
  cbn [Recorder.component Recorder.metro Recorder.isRecording].
  split; [reflexivity|]. split; [reflexivity|]. split; [reflexivity|].
  split; [|reflexivity].
  simpl. rewrite tones_app. simpl. apply app_nil_r.
Qed.

Lemma recorder_with_zero_tempo_records_in_silence_witness :
  exists app' : Recorder.App,
    Recorder.start 1 1000 recorder_without_tempo = Recorder.Done app'
    /\ Recorder.isRecording (Recorder.component app') = true
    /\ this (Recorder.metro app') = this (Recorder.metro recorder_without_tempo)
    /\ pending (env (Recorder.metro app'))
       = pending (env (Recorder.metro recorder_without_tempo))
    /\ tones (trace (env (Recorder.metro app')))
       = tones (trace (env (Recorder.metro recorder_without_tempo)))
    /\ trace (env (Recorder.metro app'))
       = trace (env (Recorder.metro recorder_without_tempo))
         ++ [ConsoleError (InvalidBpm (Js.Num (Js.Fin (0 / 1))))].
Proof.
  apply (recorder_with_zero_tempo_records_in_silence 1 1000 0 1
           recorder_without_tempo); reflexivity.
Defined.

(** ** The metronome of the component never throws *)










